(** * The latitudinal energy-balance model of [engine/ebm.ts]

    A shallow embedding of the [EBM] class: the grid, the diagnostics
    (albedo, absorbed and outgoing radiation, diffusive transport) and the
    sub-stepping integrator [step].

    The engine computes with JavaScript numbers and keeps every field in a
    [Float32Array].  The arithmetic is an interface ([Number]) with two
    instances: [IEEE], binary64 numbers whose array stores round to
    binary32, which is what the program runs on, and [Exact], the real
    numbers, which is what the formulas of the specification denote. *)

From Stdlib Require Import String.
From Stdlib Require Import ZArith Floats Reals Lra Lia List Bool.
From stdpp Require Import base list.
Import ListNotations.

Local Open Scope Z_scope.

(** ** Numbers *)

Declare Scope num_scope.
Delimit Scope num_scope with num.

Class Number (num : Type) : Type := {
  of_Z : Z -> num;              (* an integer literal or loop counter *)
  n_add : num -> num -> num;
  n_sub : num -> num -> num;
  n_mul : num -> num -> num;
  n_div : num -> num -> num;
  n_neg : num -> num;
  n_ltb : num -> num -> bool;   (* [a < b]; [a > b] is [n_ltb b a] *)
  isnan : num -> bool;          (* the global isNaN on a number *)
  NaN : num;                    (* what [undefined] converts to *)
  Math_min : num -> num -> num;
  Math_asin : num -> num;
  Math_PI : num;
  fround : num -> num;          (* the conversion of a Float32Array store *)
}.

Notation "# k" := (of_Z k) (at level 5, k at level 1, format "# k") : num_scope.
Infix "+" := n_add : num_scope.
Infix "-" := n_sub : num_scope.
Infix "*" := n_mul : num_scope.
Infix "/" := n_div : num_scope.
Notation "- a" := (n_neg a) : num_scope.
Infix "<?" := n_ltb : num_scope.
Notation "a >? b" := (n_ltb b a) (only parsing) : num_scope.

(** A decimal literal [n/d] with [d] a power of ten, such as [0.482] =
    [dec 482 1000].  Both integers are below 2^53, so in binary64 the
    quotient is the number nearest to the decimal, as the literal is. *)
Definition dec {num} `{Number num} (n d : Z) : num := (#n / #d)%num.

(** *** binary64 with binary32 stores *)

Module Float64.

Definition of_Z (z : Z) : float := SF2Prim (binary_normalize prec emax z 0 false).

(** Math.fround: round to nearest, ties to even, in binary32. *)
Definition fround (v : float) : float :=
  match Prim2SF v with
  | S754_finite s m e => SF2Prim (binary_round 24 128 s m e)
  | _ => v
  end.

(** Math.min of two numbers: NaN if either is, and -0 below +0. *)
Definition min (a b : float) : float :=
  if is_nan a || is_nan b then nan
  else if PrimFloat.ltb a b then a
  else if PrimFloat.ltb b a then b
  else if PrimFloat.ltb (PrimFloat.div 1 a) 0 then a else b.

(** Math.asin is implementation-approximated in ECMAScript: which binary64
    number it returns is up to the JavaScript engine, so the arithmetic below
    takes the function as a parameter ([IEEE_with]) and what is proved of
    [lat] is proved for every such function.  The one here is a stand-in for
    running examples, not the function of any engine: it halves the angle
    three times, sin(t/2) = sin t / (sqrt(1 + sin t) + sqrt(1 - sin t)), and
    sums the Taylor series up to the eleventh power.  It only feeds [lat],
    which the engine never reads back. *)
Definition half_angle (u : float) : float :=
  PrimFloat.div u (PrimFloat.add (PrimFloat.sqrt (PrimFloat.add 1 u))
                                 (PrimFloat.sqrt (PrimFloat.sub 1 u))).

Definition asin (v : float) : float :=
  let u := half_angle (half_angle (half_angle v)) in
  let u2 := PrimFloat.mul u u in
  let c k d := PrimFloat.div (of_Z k) (of_Z d) in
  let poly :=
    PrimFloat.add 1 (PrimFloat.mul u2
      (PrimFloat.add (c 1 6) (PrimFloat.mul u2
        (PrimFloat.add (c 3 40) (PrimFloat.mul u2
          (PrimFloat.add (c 5 112) (PrimFloat.mul u2
            (PrimFloat.add (c 35 1152) (PrimFloat.mul u2 (c 63 2816)))))))))) in
  PrimFloat.mul 8 (PrimFloat.mul u poly).

Definition PI : float := PrimFloat.div (of_Z 3141592653589793) (of_Z (10 ^ 15)).

End Float64.

(** binary64 arithmetic over a JavaScript engine whose Math.asin is [asin]. *)
Definition IEEE_with (asin : float -> float) : Number float := {|
  of_Z := Float64.of_Z;
  n_add := PrimFloat.add;
  n_sub := PrimFloat.sub;
  n_mul := PrimFloat.mul;
  n_div := PrimFloat.div;
  n_neg := PrimFloat.opp;
  n_ltb := PrimFloat.ltb;
  isnan := PrimFloat.is_nan;
  NaN := PrimFloat.nan;
  Math_min := Float64.min;
  Math_asin := asin;
  Math_PI := Float64.PI;
  fround := Float64.fround;
|}.

#[export] Instance IEEE : Number float := IEEE_with Float64.asin.

(** *** The real numbers

    No rounding and no NaN: [isnan] is constantly false, a store keeps the
    number, and an absent element reads as 0 where a number is needed.
    A quotient by zero has no counterpart here ([Rdiv] makes it 0 where the
    program has an infinity or NaN), so what is proved in exact arithmetic
    carries the hypotheses that keep every divisor away from zero: a
    positive band count, a positive [safeDt]. *)

Module Real.

Definition ltb (a b : R) : bool := if Rlt_dec a b then true else false.

End Real.

#[export] Instance Exact : Number R := {
  of_Z := IZR;
  n_add := Rplus;
  n_sub := Rminus;
  n_mul := Rmult;
  n_div := Rdiv;
  n_neg := Ropp;
  n_ltb := Real.ltb;
  isnan := fun _ => false;
  NaN := 0%R;
  Math_min := Rmin;
  Math_asin := Ratan.asin;
  Math_PI := PI;
  fround := fun v => v;
}.

(** ** Typed arrays and loops *)

Inductive Error : Type := RangeError.

Section Engine.

Context {num : Type} `{Number num}.

Local Open Scope num_scope.

(** A Float32Array is the list of its elements.  [arr !! i] is the read
    [arr[i]], [None] for [undefined]; [<[i := v]> arr] leaves the array
    alone when [i] is out of range, as a typed array does. *)
Definition Float32Array : Type := list num.

(** [new Float32Array(n)]: ToIndex rejects a negative length and one above
    2^53 - 1; the elements start at +0. *)
Definition new_Float32Array (n : Z) : Error + Float32Array :=
  if ((n <? 0) || (2 ^ 53 - 1 <? n))%Z then inl RangeError
  else inr (replicate (Z.to_nat n) #0).

(** [arr[i]] where a number is expected. *)
Definition rd (arr : Float32Array) (i : nat) : num := default NaN (arr !! i).

(** [arr[i] = v]. *)
Definition wr (arr : Float32Array) (i : nat) (v : num) : Float32Array :=
  <[i := fround v]> arr.

(** [isNaN(arr[i])]. *)
Definition isNaN (v : option num) : bool :=
  match v with Some v => isnan v | None => true end.

(** [for (let i = lo; i < hi; i++) body]. *)
Definition for_loop {St : Type} (lo hi : nat) (body : nat -> St -> St) (s : St) : St :=
  fold_left (fun s i => body i s) (seq lo (hi - lo)) s.

(** ** The engine *)

Record EBMParams : Type := {
  S0 : num;
  A : num;
  B : num;
  D : num;
  iceAlbedo : num;
  oceanAlbedo : num;
  iceThreshold : num;
}.

Definition DEFAULT_PARAMS : EBMParams := {|
  S0 := #1360;
  A := #210;
  B := #2;
  D := dec 6 10;
  iceAlbedo := dec 62 100;
  oceanAlbedo := dec 3 10;
  iceThreshold := - #10;
|}.

Record EBM : Type := {
  params : EBMParams;
  size : Z;
  lat : Float32Array;
  x : Float32Array;
  T : Float32Array;
  albedo : Float32Array;
  insol : Float32Array;
  ASR : Float32Array;
  OLR : Float32Array;
  transport : Float32Array;
  _fluxBuffer : Float32Array;
  time : num;
}.

Definition set_lat (v : Float32Array) (e : EBM) : EBM :=
  {| params := params e; size := size e; lat := v; x := x e; T := T e;
     albedo := albedo e; insol := insol e; ASR := ASR e; OLR := OLR e;
     transport := transport e; _fluxBuffer := _fluxBuffer e; time := time e |}.
Definition set_x (v : Float32Array) (e : EBM) : EBM :=
  {| params := params e; size := size e; lat := lat e; x := v; T := T e;
     albedo := albedo e; insol := insol e; ASR := ASR e; OLR := OLR e;
     transport := transport e; _fluxBuffer := _fluxBuffer e; time := time e |}.
Definition set_T (v : Float32Array) (e : EBM) : EBM :=
  {| params := params e; size := size e; lat := lat e; x := x e; T := v;
     albedo := albedo e; insol := insol e; ASR := ASR e; OLR := OLR e;
     transport := transport e; _fluxBuffer := _fluxBuffer e; time := time e |}.
Definition set_albedo (v : Float32Array) (e : EBM) : EBM :=
  {| params := params e; size := size e; lat := lat e; x := x e; T := T e;
     albedo := v; insol := insol e; ASR := ASR e; OLR := OLR e;
     transport := transport e; _fluxBuffer := _fluxBuffer e; time := time e |}.
Definition set_insol (v : Float32Array) (e : EBM) : EBM :=
  {| params := params e; size := size e; lat := lat e; x := x e; T := T e;
     albedo := albedo e; insol := v; ASR := ASR e; OLR := OLR e;
     transport := transport e; _fluxBuffer := _fluxBuffer e; time := time e |}.
Definition set_ASR (v : Float32Array) (e : EBM) : EBM :=
  {| params := params e; size := size e; lat := lat e; x := x e; T := T e;
     albedo := albedo e; insol := insol e; ASR := v; OLR := OLR e;
     transport := transport e; _fluxBuffer := _fluxBuffer e; time := time e |}.
Definition set_OLR (v : Float32Array) (e : EBM) : EBM :=
  {| params := params e; size := size e; lat := lat e; x := x e; T := T e;
     albedo := albedo e; insol := insol e; ASR := ASR e; OLR := v;
     transport := transport e; _fluxBuffer := _fluxBuffer e; time := time e |}.
Definition set_transport (v : Float32Array) (e : EBM) : EBM :=
  {| params := params e; size := size e; lat := lat e; x := x e; T := T e;
     albedo := albedo e; insol := insol e; ASR := ASR e; OLR := OLR e;
     transport := v; _fluxBuffer := _fluxBuffer e; time := time e |}.
Definition set_fluxBuffer (v : Float32Array) (e : EBM) : EBM :=
  {| params := params e; size := size e; lat := lat e; x := x e; T := T e;
     albedo := albedo e; insol := insol e; ASR := ASR e; OLR := OLR e;
     transport := transport e; _fluxBuffer := v; time := time e |}.
Definition set_time (v : num) (e : EBM) : EBM :=
  {| params := params e; size := size e; lat := lat e; x := x e; T := T e;
     albedo := albedo e; insol := insol e; ASR := ASR e; OLR := OLR e;
     transport := transport e; _fluxBuffer := _fluxBuffer e; time := v |}.

(** The number of bands as a loop bound. *)
Definition bands (e : EBM) : nat := Z.to_nat (size e).

(** A loop counter as a number. *)
Definition idx (i : nat) : num := #(Z.of_nat i).

Definition initGrid (e : EBM) : EBM :=
  for_loop 0 (bands e) (fun i e =>
    let frac := (idx i + dec 5 10) / #(size e) in
    let xVal := - #1 + #2 * frac in
    let e := set_x (wr (x e) i xVal) e in
    set_lat (wr (lat e) i (Math_asin xVal * (#180 / Math_PI))) e) e.

Definition computeAlbedo (e : EBM) : EBM :=
  for_loop 0 (bands e) (fun i e =>
    set_albedo (wr (albedo e) i
      (if rd (T e) i <? iceThreshold (params e)
       then iceAlbedo (params e)
       else oceanAlbedo (params e))) e) e.

Definition computeInsolation (e : EBM) : EBM :=
  let s2 := - dec 482 1000 in
  for_loop 0 (bands e) (fun i e =>
    let P2 := dec 5 10 * (#3 * rd (x e) i * rd (x e) i - #1) in
    set_insol (wr (insol e) i ((S0 (params e) / #4) * (#1 + s2 * P2))) e) e.

Definition computeTransport (e : EBM) : EBM :=
  let dx := #2 / #(size e) in
  let D := D (params e) in
  let e :=
    for_loop 1 (bands e) (fun i e =>
      let x_interface := - #1 + idx i * dx in
      let cos2_interface := #1 - x_interface * x_interface in
      let dT_dx := (rd (T e) i - rd (T e) (i - 1)) / dx in
      set_fluxBuffer (wr (_fluxBuffer e) i (- D * cos2_interface * dT_dx)) e) e in
  let e := set_fluxBuffer (wr (_fluxBuffer e) 0 #0) e in
  let e := set_fluxBuffer (wr (_fluxBuffer e) (bands e) #0) e in
  for_loop 0 (bands e) (fun i e =>
    set_transport (wr (transport e) i
      (- (rd (_fluxBuffer e) (i + 1) - rd (_fluxBuffer e) i) / dx)) e) e.

Definition updateDiagnostics (e : EBM) : EBM :=
  let e := computeAlbedo e in
  let e :=
    for_loop 0 (bands e) (fun i e =>
      let e := set_ASR (wr (ASR e) i (rd (insol e) i * (#1 - rd (albedo e) i))) e in
      set_OLR (wr (OLR e) i (A (params e) + B (params e) * rd (T e) i)) e) e in
  computeTransport e.

Definition initState (e : EBM) : EBM :=
  let e :=
    for_loop 0 (bands e) (fun i e =>
      set_T (wr (T e) i (#15 + #20 * (#1 - #2 * rd (x e) i * rd (x e) i))) e) e in
  updateDiagnostics e.

(** The constructor: nine allocations, any of which may throw, then the grid
    and the initial state. *)
Definition bind {X Y : Type} (m : Error + X) (k : X -> Error + Y) : Error + Y :=
  match m with inl err => inl err | inr v => k v end.

Definition constructor (size : Z) (params : EBMParams) : Error + EBM :=
  bind (new_Float32Array size) (fun lat =>
  bind (new_Float32Array size) (fun x =>
  bind (new_Float32Array size) (fun T =>
  bind (new_Float32Array size) (fun albedo =>
  bind (new_Float32Array size) (fun insol =>
  bind (new_Float32Array size) (fun ASR =>
  bind (new_Float32Array size) (fun OLR =>
  bind (new_Float32Array size) (fun transport =>
  bind (new_Float32Array (size + 1)) (fun fluxBuffer =>
  let e := {| params := params; size := size; lat := lat; x := x; T := T;
              albedo := albedo; insol := insol; ASR := ASR; OLR := OLR;
              transport := transport; _fluxBuffer := fluxBuffer; time := #0 |} in
  inr (initState (initGrid e))))))))))).

(** ** Diagnostics read by the caller *)

Definition getGlobalMeanTemp (e : EBM) : num :=
  fold_left (fun sum t => sum + t) (T e) #0 / #(size e).

Definition getGlobalMeanNetFlux (e : EBM) : num :=
  for_loop 0 (bands e) (fun i sum => sum + (rd (ASR e) i - rd (OLR e) i)) #0
  / #(size e).

(** ** The integrator *)

Inductive LogEntry : Type :=
| console_error (time : num) (T_equator albedo_equator ASR_ OLR_ : option num)
| console_warn
| console_log (time meanT : num) (substeps : Z).

Definition heatCapacity : num := #10.

Definition safeDt (e : EBM) : num :=
  let dx := #2 / #(size e) in
  let stabilityLimit := (dx * dx) / (#2 * D (params e) + dec 1 1000) in
  stabilityLimit * dec 8 10.

(** The Euler update of every band. *)
Definition euler (dt_sub : num) (e : EBM) : EBM :=
  for_loop 0 (bands e) (fun i e =>
    let netFlux := rd (ASR e) i - rd (OLR e) i + rd (transport e) i in
    set_T (wr (T e) i (rd (T e) i + (netFlux / heatCapacity) * dt_sub)) e) e.

(** One pass through the body of the while loop, up to the ceiling check:
    either the NaN guard returns from [step], or the bands are updated
    and the two counters with them. *)
Inductive Substep : Type :=
| Abort (e : EBM) (entry : LogEntry)
| Advance (e : EBM) (dt_sub timeRemaining : num) (stepsTaken : Z).

Definition substep (safeDt : num) (e : EBM) (timeRemaining : num) (stepsTaken : Z)
    : Substep :=
  let dt_sub := Math_min timeRemaining safeDt in
  let e := updateDiagnostics e in
  if (Z.rem stepsTaken 100 =? 0)%Z && isNaN (T e !! 45%nat) then
    Abort e (console_error (time e) (T e !! 45%nat) (albedo e !! 45%nat)
                           (ASR e !! 45%nat) (OLR e !! 45%nat))
  else
    Advance (euler dt_sub e) dt_sub (timeRemaining - dt_sub) (stepsTaken + 1).

(** How the while loop was left. *)
Inductive Exit : Type :=
| NaNReturn      (* the [return] of the NaN guard *)
| TooManySteps   (* the [break] of the sub-step ceiling *)
| Exhausted.     (* the loop condition turned false *)

Record Loop : Type := {
  engine : EBM;
  exit : Exit;
  timeRemaining : num;
  stepsTaken : Z;
  taken : list num;       (* the dt_sub of each completed sub-step, in order *)
  log : list LogEntry;
}.

(** The while loop; [None] when the fuel runs out. *)
Fixpoint while_loop (fuel : nat) (safeDt : num) (e : EBM) (timeRemaining : num)
    (stepsTaken : Z) (taken : list num) : option Loop :=
  if timeRemaining >? dec 1 1000000 then
    match fuel with
    | O => None
    | S fuel =>
        match substep safeDt e timeRemaining stepsTaken with
        | Abort e entry =>
            Some {| engine := e; exit := NaNReturn; timeRemaining := timeRemaining;
                    stepsTaken := stepsTaken; taken := taken; log := [entry] |}
        | Advance e dt_sub timeRemaining stepsTaken =>
            if (stepsTaken >? 10000)%Z then
              Some {| engine := e; exit := TooManySteps; timeRemaining := timeRemaining;
                      stepsTaken := stepsTaken; taken := taken ++ [dt_sub];
                      log := [console_warn] |}
            else while_loop fuel safeDt e timeRemaining stepsTaken (taken ++ [dt_sub])
        end
    end
  else
    Some {| engine := e; exit := Exhausted; timeRemaining := timeRemaining;
            stepsTaken := stepsTaken; taken := taken; log := [] |}.

(** The ceiling bounds the passes through the loop. *)
Definition fuel : nat := Z.to_nat 10001.

(** [step(dt)], given the number [random] that Math.random() returns.  The
    result carries the engine and the console output, and the loop's
    counters for the statements about them. *)
Definition step (random dt : num) (e : EBM) : option Loop :=
  match while_loop fuel (safeDt e) e dt 0 [] with
  | None => None
  | Some r =>
      match exit r with
      | NaNReturn => Some r
      | _ =>
          let e := set_time (time (engine r) + dt) (engine r) in
          let debug :=
            if random <? dec 1 100
            then [console_log (time e) (getGlobalMeanTemp e) (stepsTaken r)]
            else [] in
          Some {| engine := e; exit := exit r; timeRemaining := timeRemaining r;
                  stepsTaken := stepsTaken r; taken := taken r;
                  log := log r ++ debug |}
      end
  end.

End Engine.

(** ** Specification functions

    What the loops store, element by element, and the relations the
    statements below are written with. *)

Section Specification.

Context {num : Type} `{Number num}.

Local Open Scope num_scope.

(** [fill lo hi v arr]: the array after [arr[i] = v i] for [i] from [lo]
    up to [hi], not included. *)
Definition fill (lo hi : nat) (v : nat -> num) (arr : Float32Array) : Float32Array :=
  for_loop lo hi (fun i arr => wr arr i (v i)) arr.

(** The right-hand sides of the stores, as the loops compute them:
    [albedo[i]] in [computeAlbedo], *)
Definition albedo_at (e : EBM) (i : nat) : num :=
  if rd (T e) i <? iceThreshold (params e)
  then iceAlbedo (params e) else oceanAlbedo (params e).

(** [insol[i]] in [computeInsolation], *)
Definition insol_at (e : EBM) (i : nat) : num :=
  let s2 := - dec 482 1000 in
  let P2 := dec 5 10 * (#3 * rd (x e) i * rd (x e) i - #1) in
  (S0 (params e) / #4) * (#1 + s2 * P2).

(** [xVal], stored in [x[i]], and the latitude stored in [lat[i]], in
    [initGrid] for [N] bands, *)
Definition xVal_at (N : Z) (i : nat) : num :=
  let frac := (idx i + dec 5 10) / #N in
  - #1 + #2 * frac.

Definition lat_at (N : Z) (i : nat) : num :=
  Math_asin (xVal_at N i) * (#180 / Math_PI).

(** [flux[i]] at an interior interface in [computeTransport], *)
Definition flux_at (e : EBM) (i : nat) : num :=
  let dx := #2 / #(size e) in
  let x_interface := - #1 + idx i * dx in
  let cos2_interface := #1 - x_interface * x_interface in
  let dT_dx := (rd (T e) i - rd (T e) (i - 1)) / dx in
  - D (params e) * cos2_interface * dT_dx.

(** The flux buffer that [computeTransport] leaves. *)
Definition flux_of (e : EBM) : Float32Array :=
  wr (wr (fill 1 (bands e) (flux_at e) (_fluxBuffer e)) 0 #0) (bands e) #0.

(** [transport[i]] in [computeTransport], *)
Definition divergence_at (dx : num) (flux : Float32Array) (i : nat) : num :=
  - (rd flux (i + 1) - rd flux i) / dx.

(** [ASR[i]] and [OLR[i]] in [updateDiagnostics], *)
Definition ASR_at (e : EBM) (i : nat) : num :=
  rd (insol e) i * (#1 - rd (albedo e) i).

Definition OLR_at (e : EBM) (i : nat) : num :=
  A (params e) + B (params e) * rd (T e) i.

(** [T[i]] after the Euler update in [step], *)
Definition T_at (dt_sub : num) (e : EBM) (i : nat) : num :=
  let netFlux := rd (ASR e) i - rd (OLR e) i + rd (transport e) i in
  rd (T e) i + (netFlux / heatCapacity) * dt_sub.

(** and the initial [T[i]] in [initState]. *)
Definition T0_at (e : EBM) (i : nat) : num :=
  #15 + #20 * (#1 - #2 * rd (x e) i * rd (x e) i).

(** *** Array lengths

    The constructor allocates every array with one element per band, and
    the flux buffer with one more; no method changes a length. *)
Record wf (e : @EBM num) : Prop := {
  wf_size : (0 <= size e)%Z;
  wf_lat : length (lat e) = bands e;
  wf_x : length (x e) = bands e;
  wf_T : length (T e) = bands e;
  wf_albedo : length (albedo e) = bands e;
  wf_insol : length (insol e) = bands e;
  wf_ASR : length (ASR e) = bands e;
  wf_OLR : length (OLR e) = bands e;
  wf_transport : length (transport e) = bands e;
  wf_fluxBuffer : length (_fluxBuffer e) = S (bands e);
}.

(** The loop as a relation: [loop_run safeDt e rem k tk r] when the loop
    entered with engine [e], [timeRemaining = rem], [stepsTaken = k] and
    the sub-steps [tk] behind it is left with [r]. *)
Inductive loop_run (safeDt : num) : EBM -> num -> Z -> list num -> Loop -> Prop :=
| run_exhausted e rem k tk :
    (rem >? dec 1 1000000) = false ->
    loop_run safeDt e rem k tk
      {| engine := e; exit := Exhausted; timeRemaining := rem; stepsTaken := k;
         taken := tk; log := [] |}
| run_return e rem k tk e' entry :
    (rem >? dec 1 1000000) = true ->
    substep safeDt e rem k = Abort e' entry ->
    loop_run safeDt e rem k tk
      {| engine := e'; exit := NaNReturn; timeRemaining := rem; stepsTaken := k;
         taken := tk; log := [entry] |}
| run_break e rem k tk e' d rem' k' :
    (rem >? dec 1 1000000) = true ->
    substep safeDt e rem k = Advance e' d rem' k' ->
    (k' >? 10000)%Z = true ->
    loop_run safeDt e rem k tk
      {| engine := e'; exit := TooManySteps; timeRemaining := rem'; stepsTaken := k';
         taken := tk ++ [d]; log := [console_warn] |}
| run_again e rem k tk e' d rem' k' r :
    (rem >? dec 1 1000000) = true ->
    substep safeDt e rem k = Advance e' d rem' k' ->
    (k' >? 10000)%Z = false ->
    loop_run safeDt e' rem' k' (tk ++ [d]) r ->
    loop_run safeDt e rem k tk r.

(** [substeps safeDt rem tk]: each sub-step of [tk] is the smaller of the
    time then remaining and [safeDt], starting from [rem]. *)
Fixpoint substeps (safeDt rem : num) (tk : list num) : Prop :=
  match tk with
  | [] => True
  | d :: tk => d = Math_min rem safeDt /\ substeps safeDt (rem - d) tk
  end.

(** The object before [initGrid]: every array allocated and zero. *)
Definition allocated (size : Z) (params : EBMParams) : EBM :=
  let zeros := replicate (Z.to_nat size) #0 in
  {| params := params; size := size; lat := zeros; x := zeros; T := zeros;
     albedo := zeros; insol := zeros; ASR := zeros; OLR := zeros;
     transport := zeros; _fluxBuffer := replicate (Z.to_nat (size + 1)) #0;
     time := #0 |}.

End Specification.

(** Nothing is below itself. *)
Class Irreflexive_ltb (num : Type) `{Number num} : Prop :=
  ltb_irrefl : forall a : num, (a <? a)%num = false.




(** The default parameters with a radiative coefficient [B] of 1e38. *)
Definition hot_B : EBMParams (num := float) :=
  {| S0 := S0 DEFAULT_PARAMS; A := A DEFAULT_PARAMS; B := of_Z (10 ^ 38);
     D := D DEFAULT_PARAMS; iceAlbedo := iceAlbedo DEFAULT_PARAMS;
     oceanAlbedo := oceanAlbedo DEFAULT_PARAMS;
     iceThreshold := iceThreshold DEFAULT_PARAMS |}.

(** ** The application's use of the engine

    The component that drives the engine keeps its state in React hooks;
    what is embedded here is what it computes with the engine: the effect
    that writes the two forcing parameters, the rows it hands to the
    charts, the climate label and the two equilibrium tests. *)

(** Math.abs. *)
Class Absolute (num : Type) : Type := Math_abs : num -> num.

#[export] Instance IEEE_abs : Absolute float := PrimFloat.abs.

#[export] Instance Exact_abs : Absolute R := Rabs.

(** A row of the charts; a field read from an array may be [undefined]. *)
Inductive ChartData (num : Type) : Type :=
| chartData (lat temp albedo asr olr : option num) (freezing : num)
    (transport : option num).

Arguments chartData {num} lat temp albedo asr olr freezing transport.

Section App.

Context {num : Type} `{Number num} `{Absolute num}.

Local Open Scope num_scope.

Definition set_params (p : @EBMParams num) (e : @EBM num) : @EBM num :=
  {| params := p; size := size e; lat := lat e; x := x e; T := T e;
     albedo := albedo e; insol := insol e; ASR := ASR e; OLR := OLR e;
     transport := transport e; _fluxBuffer := _fluxBuffer e; time := time e |}.

Definition set_S0 (v : num) (p : @EBMParams num) : @EBMParams num :=
  {| S0 := v; A := A p; B := B p; D := D p; iceAlbedo := iceAlbedo p;
     oceanAlbedo := oceanAlbedo p; iceThreshold := iceThreshold p |}.

Definition set_A (v : num) (p : @EBMParams num) : @EBMParams num :=
  {| S0 := S0 p; A := v; B := B p; D := D p; iceAlbedo := iceAlbedo p;
     oceanAlbedo := oceanAlbedo p; iceThreshold := iceThreshold p |}.

(** The effect that follows the two sliders, as far as the engine goes:
    [S0], the insolation, [A], the diagnostics. *)
Definition syncParameters (solarMultiplier co2Multiplier : num) (e : EBM) : EBM :=
  let e := set_params (set_S0 (S0 DEFAULT_PARAMS * solarMultiplier) (params e)) e in
  let e := computeInsolation e in
  let e :=
    set_params (set_A (A DEFAULT_PARAMS - (co2Multiplier - #1) * #30) (params e)) e in
  updateDiagnostics e.

(** [arr[z]] for an index that may be negative. *)
Definition at_Z (arr : @Float32Array num) (z : Z) : option num :=
  if (z <? 0)%Z then None else arr !! Z.to_nat z.

(** The row of band [z], under the latitude [l]. *)
Definition band_row (e : @EBM num) (l : option num) (z : Z) : ChartData num :=
  chartData l (at_Z (T e) z) (at_Z (albedo e) z) (at_Z (ASR e) z) (at_Z (OLR e) z)
    (iceThreshold (params e)) (at_Z (transport e) z).

(** [syncChartData]: the south pole, the bands, the north pole. *)
Definition syncChartData (e : EBM) : list (ChartData num) :=
  let newData := [band_row e (Some (- #90)) 0] in
  let newData :=
    for_loop 0 (bands e) (fun i newData =>
      newData ++ [band_row e (lat e !! i) (Z.of_nat i)]) newData in
  newData ++ [band_row e (Some #90) (size e - 1)].

(** A row under another latitude, and whether every entry of a row is a
    number (none is [undefined]). *)
Definition with_lat (l : option num) (row : ChartData num) : ChartData num :=
  match row with
  | chartData _ temp albedo asr olr freezing transport =>
      chartData l temp albedo asr olr freezing transport
  end.

Definition complete (row : ChartData num) : bool :=
  match row with
  | chartData (Some _) (Some _) (Some _) (Some _) (Some _) _ (Some _) => true
  | _ => false
  end.

(** [getClimateState]: the label and its colour. *)
Definition getClimateState (temp : num) : String.string * String.string :=
  if temp <? - #20 then ("SNOWBALL", "#a5f3fc")%string
  else if temp <? #10 then ("GLACIAL", "#94a3b8")%string
  else if temp <? #25 then ("HABITABLE", "#86efac")%string
  else ("HOTHOUSE", "#fca5a5")%string.

(** The test that pauses the loop, and the one that shows the warning. *)
Definition isInEquilibrium (e : EBM) : bool :=
  Math_abs (getGlobalMeanNetFlux e) <? #1.

Definition isOutOfEquilibrium (e : EBM) : bool :=
  Math_abs (getGlobalMeanNetFlux e) >? #1.

End App.

(** ** Loops and array fills *)

Section Loops.

Context {num : Type} `{Number num}.

Lemma for_loop_skip {St : Type} (lo hi : nat) (body : nat -> St -> St) (s : St) :
  (hi <= lo)%nat -> for_loop lo hi body s = s.
Proof.
  intros Hle. unfold for_loop.
  replace (hi - lo)%nat with 0%nat by lia. reflexivity.
Qed.

Lemma for_loop_last {St : Type} (lo hi : nat) (body : nat -> St -> St) (s : St) :
  (lo <= hi)%nat -> for_loop lo (S hi) body s = body hi (for_loop lo hi body s).
Proof.
  intros Hle. unfold for_loop.
  replace (S hi - lo)%nat with (S (hi - lo)) by lia.
  rewrite seq_S, fold_left_app. simpl.
  replace (lo + (hi - lo))%nat with hi by lia. reflexivity.
Qed.

(** The invariant rule of a counting loop. *)
Lemma for_loop_ind {St : Type} (P : nat -> St -> Prop) (lo hi : nat)
    (body : nat -> St -> St) (s : St) :
  (lo <= hi)%nat ->
  P lo s ->
  (forall i s', (lo <= i < hi)%nat -> P i s' -> P (S i) (body i s')) ->
  P hi (for_loop lo hi body s).
Proof.
  intros Hle H0 Hstep. induction hi as [|hi IH].
  - assert (lo = 0)%nat as -> by lia. exact H0.
  - destruct (Nat.eq_dec lo (S hi)) as [->|Hne].
    + rewrite for_loop_skip by lia. exact H0.
    + rewrite for_loop_last by lia. apply Hstep; [lia|].
      apply IH; [lia|]. intros i s' Hi. apply Hstep. lia.
Qed.

(** What no pass of the body changes, the loop does not change. *)
Lemma for_loop_preserves {St X : Type} (proj : St -> X) (lo hi : nat)
    (body : nat -> St -> St) (s : St) :
  (forall i s', proj (body i s') = proj s') ->
  proj (for_loop lo hi body s) = proj s.
Proof.
  intros Hbody. unfold for_loop.
  generalize (seq lo (hi - lo)). intros l. revert s.
  induction l as [|i l IH]; intros s; simpl; [reflexivity|].
  rewrite IH. apply Hbody.
Qed.

Lemma fill_last (lo hi : nat) (v : nat -> num) (arr : Float32Array) :
  (lo <= hi)%nat -> wr (fill lo hi v arr) hi (v hi) = fill lo (S hi) v arr.
Proof. intros Hle. unfold fill. rewrite for_loop_last by exact Hle. reflexivity. Qed.

Lemma fill_none (lo : nat) (v : nat -> num) (arr : Float32Array) :
  fill lo lo v arr = arr.
Proof. unfold fill. apply for_loop_skip. lia. Qed.

Lemma length_fill (lo hi : nat) (v : nat -> num) (arr : Float32Array) :
  length (fill lo hi v arr) = length arr.
Proof.
  unfold fill. apply (for_loop_preserves (fun a : Float32Array => length a)).
  intros i a. unfold wr. apply length_insert.
Qed.

Lemma lookup_fill_in (lo hi : nat) (v : nat -> num) (arr : Float32Array) (j : nat) :
  (lo <= j < hi)%nat -> (j < length arr)%nat ->
  fill lo hi v arr !! j = Some (fround (v j)).
Proof.
  intros Hj Hlen. unfold fill.
  assert (lo <= hi)%nat as Hle by lia.
  pose (P := fun (k : nat) (a : Float32Array) =>
               length a = length arr /\
               ((j < k)%nat -> a !! j = Some (fround (v j)))).
  assert (P hi (for_loop lo hi (fun i a => wr a i (v i)) arr)) as [_ HP].
  { apply for_loop_ind; [exact Hle | split; [reflexivity | lia] |].
    intros i a Hi [Hl Ha]. unfold wr. split.
    - rewrite length_insert. exact Hl.
    - intros Hlt. destruct (Nat.eq_dec i j) as [->|Hne].
      + apply list_lookup_insert_eq. lia.
      + rewrite list_lookup_insert_ne by exact Hne. apply Ha. lia. }
  apply HP. lia.
Qed.

Lemma lookup_fill_out (lo hi : nat) (v : nat -> num) (arr : Float32Array) (j : nat) :
  ~ (lo <= j < hi)%nat -> fill lo hi v arr !! j = arr !! j.
Proof.
  intros Hj. unfold fill.
  destruct (le_lt_dec lo hi) as [Hle|Hlt]; [|rewrite for_loop_skip by lia; reflexivity].
  apply (for_loop_ind (fun (_ : nat) (a : Float32Array) => a !! j = arr !! j));
    [exact Hle | reflexivity |].
  intros i a Hi Ha. unfold wr.
  rewrite list_lookup_insert_ne by lia. exact Ha.
Qed.

(** [arr[j]] as a number, after a fill. *)
Lemma rd_fill_in (lo hi : nat) (v : nat -> num) (arr : Float32Array) (j : nat) :
  (lo <= j < hi)%nat -> (j < length arr)%nat ->
  rd (fill lo hi v arr) j = fround (v j).
Proof. intros Hj Hlen. unfold rd. rewrite lookup_fill_in by assumption. reflexivity. Qed.

Lemma rd_fill_out (lo hi : nat) (v : nat -> num) (arr : Float32Array) (j : nat) :
  ~ (lo <= j < hi)%nat -> rd (fill lo hi v arr) j = rd arr j.
Proof. intros Hj. unfold rd. rewrite lookup_fill_out by assumption. reflexivity. Qed.

(** A fill only looks at [v] inside the range. *)
Lemma fill_ext (lo hi : nat) (v w : nat -> num) (arr : Float32Array) :
  (forall i, (lo <= i < hi)%nat -> v i = w i) -> fill lo hi v arr = fill lo hi w arr.
Proof.
  intros Hvw. apply list_eq. intros j.
  destruct (le_lt_dec lo j) as [Hlo|Hlo]; [destruct (le_lt_dec hi j) as [Hhi|Hhi]|].
  - rewrite !lookup_fill_out by lia. reflexivity.
  - destruct (le_lt_dec (length arr) j) as [Hlen|Hlen].
    + rewrite !(lookup_ge_None_2 _ j) by (rewrite length_fill; exact Hlen). reflexivity.
    + rewrite !lookup_fill_in by lia. rewrite Hvw by lia. reflexivity.
  - rewrite !lookup_fill_out by lia. reflexivity.
Qed.

End Loops.

(** ** What each method writes

    Every loop of the engine fills one or two arrays and leaves the other
    fields alone; the equations below say which, and with what. *)

Section Methods.

Context {num : Type} `{Number num}.

Local Open Scope num_scope.

Lemma EBM_eta (e : @EBM num) :
  e = {| params := params e; size := size e; lat := lat e; x := x e; T := T e;
         albedo := albedo e; insol := insol e; ASR := ASR e; OLR := OLR e;
         transport := transport e; _fluxBuffer := _fluxBuffer e; time := time e |}.
Proof. destruct e. reflexivity. Qed.

Ltac fields :=
  cbn [params size lat x T albedo insol ASR OLR transport _fluxBuffer
       set_lat set_x set_T set_albedo set_insol set_ASR set_OLR set_transport
       set_fluxBuffer set_time bands time].

Lemma computeAlbedo_eq (e : EBM) :
  computeAlbedo e = set_albedo (fill 0 (bands e) (albedo_at e) (albedo e)) e.
Proof.
  unfold computeAlbedo. generalize (bands e) at 1 2. intros n.
  apply (for_loop_ind (fun k s => s = set_albedo (fill 0 k (albedo_at e) (albedo e)) e));
    [lia | rewrite fill_none; fields; apply EBM_eta |].
  intros i s Hi ->. fields. rewrite <- fill_last by lia. reflexivity.
Qed.

Lemma computeInsolation_eq (e : EBM) :
  computeInsolation e = set_insol (fill 0 (bands e) (insol_at e) (insol e)) e.
Proof.
  unfold computeInsolation. generalize (bands e) at 1 2. intros n.
  apply (for_loop_ind (fun k s => s = set_insol (fill 0 k (insol_at e) (insol e)) e));
    [lia | rewrite fill_none; fields; apply EBM_eta |].
  intros i s Hi ->. fields. rewrite <- fill_last by lia. reflexivity.
Qed.

Lemma initGrid_eq (e : EBM) :
  initGrid e =
  set_lat (fill 0 (bands e) (lat_at (size e)) (lat e))
          (set_x (fill 0 (bands e) (xVal_at (size e)) (x e)) e).
Proof.
  unfold initGrid. generalize (bands e) at 1 2 3. intros n.
  apply (for_loop_ind (fun k s =>
           s = set_lat (fill 0 k (lat_at (size e)) (lat e))
                       (set_x (fill 0 k (xVal_at (size e)) (x e)) e)));
    [lia | rewrite !fill_none; fields; apply EBM_eta |].
  intros i s Hi ->. fields. rewrite <- !fill_last by lia. reflexivity.
Qed.

Lemma computeTransport_eq (e : EBM) :
  computeTransport e =
  set_transport
    (fill 0 (bands e) (divergence_at (#2 / #(size e)) (flux_of e)) (transport e))
    (set_fluxBuffer (flux_of e) e).
Proof.
  unfold computeTransport.
  assert (for_loop 1 (bands e)
            (fun i e0 =>
               set_fluxBuffer
                 (wr (_fluxBuffer e0) i
                    (- D (params e) * (#1 - (- #1 + idx i * (#2 / #(size e))) *
                                            (- #1 + idx i * (#2 / #(size e)))) *
                     ((rd (T e0) i - rd (T e0) (i - 1)) / (#2 / #(size e))))) e0) e
          = set_fluxBuffer (fill 1 (bands e) (flux_at e) (_fluxBuffer e)) e) as ->.
  { destruct (le_lt_dec 1 (bands e)) as [Hle|Hlt].
    - generalize (bands e) at 1 2, Hle. intros n Hn.
      apply (for_loop_ind (fun k s =>
               s = set_fluxBuffer (fill 1 k (flux_at e) (_fluxBuffer e)) e));
        [exact Hn | rewrite fill_none; fields; apply EBM_eta |].
      intros i s Hi ->. fields. rewrite <- fill_last by lia. reflexivity.
    - rewrite for_loop_skip by lia. unfold fill. rewrite for_loop_skip by lia.
      fields. apply EBM_eta. }
  fields. fold (flux_of e).
  generalize (bands e) at 2 4. intros n.
  apply (for_loop_ind (fun k s =>
           s = set_transport
                 (fill 0 k (divergence_at (#2 / #(size e)) (flux_of e)) (transport e))
                 (set_fluxBuffer (flux_of e) e)));
    [lia | rewrite fill_none; fields; reflexivity |].
  intros i s Hi ->. fields. rewrite <- fill_last by lia. reflexivity.
Qed.

Lemma updateDiagnostics_eq (e : EBM) :
  updateDiagnostics e =
  computeTransport
    (set_OLR (fill 0 (bands e) (OLR_at e) (OLR e))
       (set_ASR (fill 0 (bands e) (ASR_at (computeAlbedo e)) (ASR e))
          (computeAlbedo e))).
Proof.
  unfold updateDiagnostics. f_equal.
  rewrite computeAlbedo_eq.
  set (L := fill 0 (bands e) (albedo_at e) (albedo e)).
  change (bands (set_albedo L e)) with (bands e).
  generalize (bands e). intros n.
  apply (for_loop_ind (fun k s =>
           s = set_OLR (fill 0 k (OLR_at e) (OLR e))
                 (set_ASR (fill 0 k (ASR_at (set_albedo L e)) (ASR e))
                    (set_albedo L e))));
    [lia | rewrite !fill_none; fields; reflexivity |].
  intros i s Hi ->. fields. rewrite <- !fill_last by lia. reflexivity.
Qed.

Lemma euler_eq (dt_sub : num) (e : EBM) :
  euler dt_sub e = set_T (fill 0 (bands e) (T_at dt_sub e) (T e)) e.
Proof.
  unfold euler. generalize (bands e) at 1 2. intros n.
  apply (for_loop_ind (fun k s => s = set_T (fill 0 k (T_at dt_sub e) (T e)) e));
    [lia | rewrite fill_none; fields; apply EBM_eta |].
  intros i s Hi ->. fields. rewrite <- fill_last by lia.
  unfold T_at at 3. rewrite rd_fill_out by lia. reflexivity.
Qed.

Lemma initState_eq (e : EBM) :
  initState e = updateDiagnostics (set_T (fill 0 (bands e) (T0_at e) (T e)) e).
Proof.
  unfold initState. f_equal. generalize (bands e) at 1 2. intros n.
  apply (for_loop_ind (fun k s => s = set_T (fill 0 k (T0_at e) (T e)) e));
    [lia | rewrite fill_none; fields; apply EBM_eta |].
  intros i s Hi ->. fields. rewrite <- fill_last by lia. reflexivity.
Qed.

(** *** The fields a method leaves alone *)

Lemma updateDiagnostics_frame (e : EBM) :
  let e' := updateDiagnostics e in
  params e' = params e /\ size e' = size e /\ lat e' = lat e /\ x e' = x e /\
  T e' = T e /\ insol e' = insol e /\ time e' = time e.
Proof.
  cbv zeta. rewrite updateDiagnostics_eq, computeTransport_eq, computeAlbedo_eq.
  fields. repeat split; reflexivity.
Qed.

Lemma euler_frame (dt_sub : num) (e : EBM) :
  let e' := euler dt_sub e in
  params e' = params e /\ size e' = size e /\ lat e' = lat e /\ x e' = x e /\
  albedo e' = albedo e /\ insol e' = insol e /\ ASR e' = ASR e /\ OLR e' = OLR e /\
  transport e' = transport e /\ _fluxBuffer e' = _fluxBuffer e /\ time e' = time e.
Proof. cbv zeta. rewrite euler_eq. fields. repeat split; reflexivity. Qed.

Lemma length_flux_of (e : EBM) : length (flux_of e) = length (_fluxBuffer e).
Proof. unfold flux_of, wr. rewrite !length_insert. apply length_fill. Qed.

Ltac wf_tac e Hwf :=
  destruct Hwf; split; fields;
  rewrite ?length_fill, ?length_flux_of, ?length_fill; assumption.

Lemma wf_updateDiagnostics (e : EBM) : wf e -> wf (updateDiagnostics e).
Proof.
  intros Hwf. rewrite updateDiagnostics_eq, computeTransport_eq, computeAlbedo_eq.
  wf_tac e Hwf.
Qed.

Lemma wf_euler (dt_sub : num) (e : EBM) : wf e -> wf (euler dt_sub e).
Proof. intros Hwf. rewrite euler_eq. wf_tac e Hwf. Qed.

Lemma wf_computeInsolation (e : EBM) : wf e -> wf (computeInsolation e).
Proof. intros Hwf. rewrite computeInsolation_eq. wf_tac e Hwf. Qed.

Lemma wf_initGrid (e : EBM) : wf e -> wf (initGrid e).
Proof. intros Hwf. rewrite initGrid_eq. wf_tac e Hwf. Qed.

Lemma wf_initState (e : EBM) : wf e -> wf (initState e).
Proof.
  intros Hwf. rewrite initState_eq. apply wf_updateDiagnostics. wf_tac e Hwf.
Qed.

End Methods.

(** ** The while loop of [step] *)

Section Integrator.

Context {num : Type} `{Number num}.

Local Open Scope num_scope.

Lemma while_loop_run (fuel : nat) (safeDt : num) (e : EBM) (rem : num) (k : Z)
    (tk : list num) (r : Loop) :
  while_loop fuel safeDt e rem k tk = Some r -> loop_run safeDt e rem k tk r.
Proof.
  revert e rem k tk. induction fuel as [|fuel IH]; intros e rem k tk; simpl.
  - destruct (rem >? dec 1 1000000) eqn:Hrem; [discriminate|].
    intros [= <-]. apply run_exhausted. exact Hrem.
  - destruct (rem >? dec 1 1000000) eqn:Hrem.
    + destruct (substep safeDt e rem k) as [e' entry|e' d rem' k'] eqn:Hsub.
      * intros [= <-]. eapply run_return; eassumption.
      * destruct (k' >? 10000)%Z eqn:Hk.
        -- intros [= <-]. eapply run_break; eassumption.
        -- intros Hw. eapply run_again; try eassumption. apply IH. exact Hw.
    + intros [= <-]. apply run_exhausted. exact Hrem.
Qed.

(** The two outcomes of a pass. *)
Lemma substep_cases (safeDt : num) (e : EBM) (rem : num) (k : Z) :
  let e1 := updateDiagnostics e in
  (Z.rem k 100 = 0%Z /\ isNaN (T e !! 45%nat) = true /\
   substep safeDt e rem k =
   Abort e1 (console_error (time e) (T e !! 45%nat) (albedo e1 !! 45%nat)
               (ASR e1 !! 45%nat) (OLR e1 !! 45%nat)))
  \/
  ((Z.rem k 100 <> 0%Z \/ isNaN (T e !! 45%nat) = false) /\
   substep safeDt e rem k =
   Advance (euler (Math_min rem safeDt) e1) (Math_min rem safeDt)
     (rem - Math_min rem safeDt) (k + 1)).
Proof.
  cbv zeta. unfold substep.
  destruct (updateDiagnostics_frame e) as (_ & _ & _ & _ & HT & _ & Htime).
  cbv zeta in HT, Htime. rewrite HT, Htime.
  destruct (Z.rem k 100 =? 0)%Z eqn:Hk; cbn [andb].
  - apply Z.eqb_eq in Hk.
    destruct (isNaN (T e !! 45%nat)) eqn:Hnan.
    + left. repeat split; assumption || reflexivity.
    + right. split; [right; reflexivity | reflexivity].
  - apply Z.eqb_neq in Hk. right. split; [left; exact Hk | reflexivity].
Qed.

Lemma substep_advance_inv (safeDt : num) (e : EBM) (rem : num) (k : Z)
    (e' : EBM) (d rem' : num) (k' : Z) :
  substep safeDt e rem k = Advance e' d rem' k' ->
  e' = euler d (updateDiagnostics e) /\ d = Math_min rem safeDt /\
  rem' = rem - d /\ k' = (k + 1)%Z.
Proof.
  intros Hsub.
  destruct (substep_cases safeDt e rem k) as [(_ & _ & Ha)|(_ & Ha)];
    cbv zeta in Ha; rewrite Ha in Hsub; [discriminate|].
  injection Hsub as He Hd Hrem Hk. subst e' d rem' k'.
  repeat split; reflexivity.
Qed.

Lemma substep_abort_inv (safeDt : num) (e : EBM) (rem : num) (k : Z)
    (e' : EBM) (entry : LogEntry) :
  substep safeDt e rem k = Abort e' entry ->
  Z.rem k 100 = 0%Z /\ isNaN (T e !! 45%nat) = true /\
  e' = updateDiagnostics e /\
  entry = console_error (time e) (T e !! 45%nat) (albedo e' !! 45%nat)
            (ASR e' !! 45%nat) (OLR e' !! 45%nat).
Proof.
  intros Hsub.
  destruct (substep_cases safeDt e rem k) as [(Hk & Hnan & Ha)|(_ & Ha)];
    cbv zeta in Ha; rewrite Ha in Hsub; [|discriminate].
  assert (e' = updateDiagnostics e) as ->
    by exact (f_equal (fun s => match s with Abort a _ => a | Advance a _ _ _ => a end)
                (eq_sym Hsub)).
  assert (entry = console_error (time e) (T e !! 45%nat)
                    (albedo (updateDiagnostics e) !! 45%nat)
                    (ASR (updateDiagnostics e) !! 45%nat)
                    (OLR (updateDiagnostics e) !! 45%nat)) as ->
    by exact (f_equal (fun s => match s with Abort _ l => l | Advance _ _ _ _ => entry end)
                (eq_sym Hsub)).
  repeat split; assumption || reflexivity.
Qed.

(** The loop returns: the ceiling bounds the passes, so [fuel] is enough. *)
Lemma while_loop_total (n : nat) (safeDt : num) (e : EBM) (rem : num) (k : Z)
    (tk : list num) :
  (k <= 10000)%Z -> (10001 <= Z.of_nat n + k)%Z ->
  exists r, while_loop n safeDt e rem k tk = Some r.
Proof.
  revert e rem k tk. induction n as [|n IH]; intros e rem k tk Hk Hn; [lia|].
  simpl. destruct (rem >? dec 1 1000000); [|eexists; reflexivity].
  destruct (substep safeDt e rem k) as [e' entry|e' d rem' k'] eqn:Hsub;
    [eexists; reflexivity|].
  apply substep_advance_inv in Hsub as (_ & _ & _ & ->).
  destruct (k + 1 >? 10000)%Z eqn:Hc; [eexists; reflexivity|].
  apply IH; lia.
Qed.

(** What passes of the loop do not touch. *)
Lemma loop_run_frame (safeDt : num) (e : EBM) (rem : num) (k : Z) (tk : list num)
    (r : Loop) :
  loop_run safeDt e rem k tk r ->
  params (engine r) = params e /\ size (engine r) = size e /\
  lat (engine r) = lat e /\ x (engine r) = x e /\
  insol (engine r) = insol e /\ time (engine r) = time e.
Proof.
  induction 1 as [e rem k tk Hrem | e rem k tk e' entry Hrem Hsub
                 | e rem k tk e' d rem' k' Hrem Hsub Hk
                 | e rem k tk e' d rem' k' r Hrem Hsub Hk Hrun IH]; simpl.
  - repeat split; reflexivity.
  - apply substep_abort_inv in Hsub as (_ & _ & -> & _).
    destruct (updateDiagnostics_frame e) as (? & ? & ? & ? & ? & ? & ?).
    repeat split; assumption.
  - apply substep_advance_inv in Hsub as (-> & _).
    destruct (euler_frame d (updateDiagnostics e))
      as (-> & -> & -> & -> & _ & -> & _ & _ & _ & _ & ->).
    destruct (updateDiagnostics_frame e) as (? & ? & ? & ? & ? & ? & ?).
    repeat split; assumption.
  - apply substep_advance_inv in Hsub as (-> & _).
    destruct IH as (-> & -> & -> & -> & -> & ->).
    destruct (euler_frame d (updateDiagnostics e))
      as (-> & -> & -> & -> & _ & -> & _ & _ & _ & _ & ->).
    destruct (updateDiagnostics_frame e) as (? & ? & ? & ? & ? & ? & ?).
    repeat split; assumption.
Qed.

Lemma loop_run_wf (safeDt : num) (e : EBM) (rem : num) (k : Z) (tk : list num)
    (r : Loop) :
  loop_run safeDt e rem k tk r -> wf e -> wf (engine r).
Proof.
  induction 1 as [e rem k tk Hrem | e rem k tk e' entry Hrem Hsub
                 | e rem k tk e' d rem' k' Hrem Hsub Hk
                 | e rem k tk e' d rem' k' r Hrem Hsub Hk Hrun IH]; simpl; intros Hwf.
  - exact Hwf.
  - apply substep_abort_inv in Hsub as (_ & _ & -> & _).
    apply wf_updateDiagnostics. exact Hwf.
  - apply substep_advance_inv in Hsub as (-> & _).
    apply wf_euler, wf_updateDiagnostics. exact Hwf.
  - apply substep_advance_inv in Hsub as (-> & _).
    apply IH, wf_euler, wf_updateDiagnostics. exact Hwf.
Qed.

(** The sub-steps taken, and what is left of the request. *)
Lemma loop_run_trace (safeDt : num) (e : EBM) (rem : num) (k : Z) (tk : list num)
    (r : Loop) :
  loop_run safeDt e rem k tk r ->
  exists new,
    taken r = tk ++ new /\ substeps safeDt rem new /\
    timeRemaining r = fold_left n_sub new rem /\
    stepsTaken r = (k + Z.of_nat (length new))%Z.
Proof.
  induction 1 as [e rem k tk Hrem | e rem k tk e' entry Hrem Hsub
                 | e rem k tk e' d rem' k' Hrem Hsub Hk
                 | e rem k tk e' d rem' k' r Hrem Hsub Hk Hrun IH]; simpl.
  - exists []. rewrite app_nil_r. simpl. repeat split; try reflexivity. lia.
  - exists []. rewrite app_nil_r. simpl. repeat split; try reflexivity. lia.
  - apply substep_advance_inv in Hsub as (_ & Hd & -> & ->).
    exists [d]. simpl. repeat split; first [exact Hd | reflexivity | lia].
  - apply substep_advance_inv in Hsub as (_ & Hd & -> & ->).
    destruct IH as (new & Htk & Hsubs & Hrest & Hsteps).
    exists (d :: new). simpl. rewrite Htk, <- app_assoc. simpl.
    repeat split; first [assumption | reflexivity | rewrite Hsteps; simpl length; lia].
Qed.

(** How the loop is left. *)
Lemma loop_run_exit (safeDt : num) (e : EBM) (rem : num) (k : Z) (tk : list num)
    (r : Loop) :
  loop_run safeDt e rem k tk r ->
  match exit r with
  | Exhausted => (timeRemaining r >? dec 1 1000000) = false /\ log r = []
  | NaNReturn =>
      Z.rem (stepsTaken r) 100 = 0%Z /\ isNaN (T (engine r) !! 45%nat) = true /\
      log r = [console_error (time (engine r)) (T (engine r) !! 45%nat)
                 (albedo (engine r) !! 45%nat) (ASR (engine r) !! 45%nat)
                 (OLR (engine r) !! 45%nat)]
  | TooManySteps => (10000 < stepsTaken r)%Z /\ log r = [console_warn]
  end.
Proof.
  induction 1 as [e rem k tk Hrem | e rem k tk e' entry Hrem Hsub
                 | e rem k tk e' d rem' k' Hrem Hsub Hk
                 | e rem k tk e' d rem' k' r Hrem Hsub Hk Hrun IH]; simpl.
  - split; [exact Hrem | reflexivity].
  - apply substep_abort_inv in Hsub as (Hk & Hnan & -> & ->).
    destruct (updateDiagnostics_frame e) as (_ & _ & _ & _ & -> & _ & ->).
    repeat split; assumption.
  - split; [lia | reflexivity].
  - exact IH.
Qed.

(** [step] is the loop, then the clock and the debug line unless the NaN
    guard returned. *)
Lemma step_inv (random dt : num) (e : EBM) (r : Loop) :
  step random dt e = Some r ->
  exists r0,
    loop_run (safeDt e) e dt 0 [] r0 /\
    exit r = exit r0 /\ timeRemaining r = timeRemaining r0 /\
    stepsTaken r = stepsTaken r0 /\ taken r = taken r0 /\
    ((exit r0 = NaNReturn /\ r = r0) \/
     (exit r0 <> NaNReturn /\
      engine r = set_time (time (engine r0) + dt) (engine r0) /\
      exists debug, log r = log r0 ++ debug /\
                    forall entry, In entry debug -> exists t m n, entry = console_log t m n)).
Proof.
  unfold step. destruct (while_loop fuel (safeDt e) e dt 0 []) as [r0|] eqn:Hw;
    [|discriminate].
  apply while_loop_run in Hw. intros Hr. exists r0. split; [exact Hw|].
  destruct (exit r0) eqn:Hexit; injection Hr as <-; simpl;
    repeat (split; [first [reflexivity | assumption]|]).
  - left. split; reflexivity.
  - right. split; [discriminate|]. split; [reflexivity|].
    eexists. split; [reflexivity|]. intros entry.
    destruct (random <? dec 1 100); simpl; [|tauto].
    intros [<-|[]]. eexists _, _, _. reflexivity.
  - right. split; [discriminate|]. split; [reflexivity|].
    eexists. split; [reflexivity|]. intros entry.
    destruct (random <? dec 1 100); simpl; [|tauto].
    intros [<-|[]]. eexists _, _, _. reflexivity.
Qed.

(** [step] returns. *)
Lemma step_total (random dt : num) (e : EBM) : exists r, step random dt e = Some r.
Proof.
  unfold step.
  destruct (while_loop_total fuel (safeDt e) e dt 0 []) as [r0 ->];
    [lia | unfold fuel; lia |].
  destruct (exit r0); eexists; reflexivity.
Qed.

End Integrator.

(** ** The constructor *)

Section Construction.

Context {num : Type} `{Number num}.

Local Open Scope num_scope.

Lemma new_Float32Array_ok (n : Z) :
  (0 <= n <= 2 ^ 53 - 1)%Z -> new_Float32Array n = inr (replicate (Z.to_nat n) #0).
Proof.
  intros Hn. unfold new_Float32Array.
  destruct (n <? 0)%Z eqn:H0; [apply Z.ltb_lt in H0; lia|].
  destruct (2 ^ 53 - 1 <? n)%Z eqn:H1; [apply Z.ltb_lt in H1; lia|].
  reflexivity.
Qed.

Lemma new_Float32Array_fail (n : Z) :
  (n < 0 \/ 2 ^ 53 - 1 < n)%Z -> new_Float32Array n = inl RangeError.
Proof.
  intros Hn. unfold new_Float32Array.
  destruct (n <? 0)%Z eqn:H0; [reflexivity|].
  destruct (2 ^ 53 - 1 <? n)%Z eqn:H1; [reflexivity|].
  apply Z.ltb_ge in H0, H1. lia.
Qed.

Lemma constructor_ok (size : Z) (p : EBMParams) :
  (0 <= size <= 2 ^ 53 - 2)%Z ->
  constructor size p = inr (initState (initGrid (allocated size p))).
Proof.
  intros Hs. unfold constructor.
  rewrite (new_Float32Array_ok size) by lia.
  rewrite (new_Float32Array_ok (size + 1)) by lia.
  reflexivity.
Qed.

Lemma constructor_fail (size : Z) (p : EBMParams) :
  (size < 0 \/ 2 ^ 53 - 2 < size)%Z -> constructor size p = inl RangeError.
Proof.
  intros Hs. unfold constructor.
  destruct (Z_lt_dec size 0) as [Hneg|Hpos].
  - rewrite (new_Float32Array_fail size) by lia. reflexivity.
  - destruct (Z_le_dec size (2 ^ 53 - 1)) as [Hle|Hgt].
    + rewrite (new_Float32Array_ok size) by lia.
      rewrite (new_Float32Array_fail (size + 1)) by lia. reflexivity.
    + rewrite (new_Float32Array_fail size) by lia. reflexivity.
Qed.

Lemma constructor_inv (size : Z) (p : EBMParams) (e : EBM) :
  constructor size p = inr e ->
  (0 <= size <= 2 ^ 53 - 2)%Z /\ e = initState (initGrid (allocated size p)).
Proof.
  intros He.
  destruct (Z_lt_dec size 0) as [Hneg|Hpos];
    [rewrite constructor_fail in He by lia; discriminate|].
  destruct (Z_lt_dec (2 ^ 53 - 2) size) as [Hbig|Hsmall];
    [rewrite constructor_fail in He by lia; discriminate|].
  rewrite constructor_ok in He by lia. injection He as <-.
  split; [lia | reflexivity].
Qed.

Lemma wf_allocated (n : Z) (p : EBMParams) : (0 <= n)%Z -> wf (allocated n p).
Proof.
  intros Hs. unfold allocated.
  split; unfold bands; cbn [size lat x T albedo insol ASR OLR transport _fluxBuffer];
    rewrite ?length_replicate; lia.
Qed.

(** A constructed engine: its arrays have one element per band. *)
Lemma constructor_wf (n : Z) (p : EBMParams) (e : EBM) :
  constructor n p = inr e -> wf e /\ size e = n /\ params e = p.
Proof.
  intros He. apply constructor_inv in He as [Hn ->].
  split; [apply wf_initState, wf_initGrid, wf_allocated; lia|].
  rewrite initState_eq.
  destruct (updateDiagnostics_frame
              (set_T (fill 0 (bands (initGrid (allocated n p)))
                        (T0_at (initGrid (allocated n p)))
                        (T (initGrid (allocated n p))))
                 (initGrid (allocated n p)))) as (-> & -> & _).
  rewrite initGrid_eq. cbn. split; reflexivity.
Qed.

End Construction.

(** * Facts for the claims *)

(** ** Reading back what was stored *)

Section Reads.

Context {num : Type} `{Number num}.

Lemma rd_Some (arr : Float32Array) (i : nat) (v : num) :
  arr !! i = Some v -> rd arr i = v.
Proof. intros Hv. unfold rd. rewrite Hv. reflexivity. Qed.

Lemma constructor_bands (n : Z) (p : EBMParams) (e : EBM) :
  constructor n p = inr e -> bands e = Z.to_nat n.
Proof.
  intros He. apply constructor_wf in He as (_ & Hsize & _).
  unfold bands. rewrite Hsize. reflexivity.
Qed.

End Reads.

(** ** A call whose guard fires at once *)

Section NoSentinel.

Context {num : Type} `{Number num}.

Local Open Scope num_scope.

(** A call whose guard fires in the first pass. *)
Lemma step_returns_at_once (random dt : num) (e : EBM) :
  (dt >? dec 1 1000000) = true -> isNaN (T e !! 45%nat) = true ->
  let e1 := updateDiagnostics e in
  step random dt e =
  Some {| engine := e1; exit := NaNReturn; timeRemaining := dt; stepsTaken := 0;
          taken := [];
          log := [console_error (time e) (T e !! 45%nat) (albedo e1 !! 45%nat)
                    (ASR e1 !! 45%nat) (OLR e1 !! 45%nat)] |}.
Proof.
  intros Hdt Hnan. cbv zeta. unfold step.
  assert (fuel = S (Z.to_nat 10000)) as -> by (vm_compute; reflexivity).
  cbn [while_loop]. rewrite Hdt.
  destruct (substep_cases (safeDt e) e dt 0) as [(_ & _ & ->)|([Hk|Hno] & _)].
  - reflexivity.
  - exfalso. apply Hk. reflexivity.
  - rewrite Hnan in Hno. discriminate.
Qed.

Lemma no_band_45 (e : @EBM num) :
  wf e -> (size e <= 45)%Z -> T e !! 45%nat = None.
Proof.
  intros Hwf Hsize.
  apply lookup_ge_None_2. rewrite (wf_T e Hwf). unfold bands. lia.
Qed.

End NoSentinel.

(** ** The sub-steps of a call *)

Section Substeps.

Context {num : Type} `{Number num}.

Local Open Scope num_scope.

(** The Euler update of a pass, band by band. *)
Lemma substep_bands (safeDt : num) (e : EBM) (rem : num) (k : Z)
    (e' : EBM) (d rem' : num) (k' : Z) :
  wf e -> substep safeDt e rem k = Advance e' d rem' k' ->
  let e1 := updateDiagnostics e in
  forall i, (i < bands e)%nat ->
    T e' !! i =
    Some (fround (rd (T e1) i
                  + ((rd (ASR e1) i - rd (OLR e1) i + rd (transport e1) i) / #10) * d)).
Proof.
  intros Hwf Hsub e1 i Hi.
  apply substep_advance_inv in Hsub as (-> & _).
  rewrite euler_eq. cbn [T set_T]. fold e1.
  pose proof (wf_updateDiagnostics e Hwf) as Hwf1. fold e1 in Hwf1.
  assert (bands e1 = bands e) as Hb.
  { unfold bands, e1. destruct (updateDiagnostics_frame e) as (_ & -> & _). reflexivity. }
  rewrite lookup_fill_in; [reflexivity | lia |].
  rewrite (wf_T e1 Hwf1), Hb. exact Hi.
Qed.

(** The sub-steps of a call, and what they leave of the request. *)
Lemma step_budget (random dt : num) (e : EBM) :
  exists r,
    step random dt e = Some r /\
    substeps (safeDt e) dt (taken r) /\
    timeRemaining r = fold_left n_sub (taken r) dt /\
    stepsTaken r = Z.of_nat (length (taken r)) /\
    (exit r = Exhausted -> (timeRemaining r >? dec 1 1000000) = false).
Proof.
  destruct (step_total random dt e) as [r Hr]. exists r. split; [exact Hr|].
  apply step_inv in Hr as (r0 & Hrun & -> & -> & -> & -> & _).
  pose proof (loop_run_exit _ _ _ _ _ _ Hrun) as Hout.
  apply loop_run_trace in Hrun as (new & Htk & Hsubs & Hrest & Hsteps).
  cbn in Htk. subst new.
  repeat split; try assumption.
  intros Hexit. rewrite Hexit in Hout. apply Hout.
Qed.

End Substeps.

(** In exact arithmetic, taking the sub-steps off the request one by one
    is taking off their sum. *)
Lemma fold_left_Rminus (l : list R) (a : R) :
  fold_left Rminus l a = (a - fold_left Rplus l 0)%R.
Proof.
  revert a. induction l as [|d l IH] using rev_ind; intros a; cbn.
  - lra.
  - rewrite !fold_left_app. cbn. rewrite IH. lra.
Qed.

Lemma Real_ltb_false (a b : R) : Real.ltb a b = false -> (b <= a)%R.
Proof. unfold Real.ltb. destruct (Rlt_dec a b); [discriminate | lra]. Qed.

Lemma Real_ltb_true (a b : R) : Real.ltb a b = true -> (a < b)%R.
Proof. unfold Real.ltb. destruct (Rlt_dec a b); [lra | discriminate]. Qed.

(** ** The flux buffer and the sum of the transports *)

Section Boundary.

Context {num : Type} `{Number num}.

Local Open Scope num_scope.

(** The two polar fluxes are the stored zero. *)
Lemma boundary_flux (e : EBM) :
  wf e ->
  _fluxBuffer (computeTransport e) !! 0%nat = Some (fround #0) /\
  _fluxBuffer (computeTransport e) !! bands e = Some (fround #0).
Proof.
  intros Hwf. rewrite computeTransport_eq. cbn [_fluxBuffer set_transport set_fluxBuffer].
  unfold flux_of, wr.
  assert (length (fill 1 (bands e) (flux_at e) (_fluxBuffer e)) = S (bands e)) as Hlen
    by (rewrite length_fill; apply (wf_fluxBuffer e Hwf)).
  split.
  - destruct (Nat.eq_dec (bands e) 0%nat) as [Heq|Hne].
    + rewrite Heq in Hlen |- *.
      apply list_lookup_insert_eq. rewrite length_insert, Hlen. lia.
    + rewrite list_lookup_insert_ne by exact Hne.
      apply list_lookup_insert_eq. rewrite Hlen. lia.
  - apply list_lookup_insert_eq. rewrite length_insert, Hlen. lia.
Qed.

(** An array filled from end to end. *)
Lemma fill_whole (n : nat) (v : nat -> num) (arr : Float32Array) :
  length arr = n -> fill 0 n v arr = map (fun i => fround (v i)) (seq 0 n).
Proof.
  intros Hlen. apply list_eq. intros j.
  destruct (le_lt_dec n j) as [Hge|Hlt].
  - rewrite !(lookup_ge_None_2 _ j); [reflexivity | |].
    + rewrite length_map, length_seq. exact Hge.
    + rewrite length_fill, Hlen. exact Hge.
  - rewrite lookup_fill_in by lia.
    change (map (fun i => fround (v i)) (seq 0 n)) with ((fun i => fround (v i)) <$> seq 0 n).
    rewrite list_lookup_fmap, lookup_seq_lt by exact Hlt. reflexivity.
Qed.

End Boundary.

(** In exact arithmetic the divergences telescope. *)
Lemma sum_divergence (dx : R) (flux : list R) (n : nat) :
  fold_left Rplus (map (divergence_at (H := Exact) dx flux) (seq 0 n)) 0%R
  = ((rd flux 0 - rd flux n) / dx)%R.
Proof.
  induction n as [|n IH].
  - cbn. unfold Rdiv. ring.
  - rewrite seq_S, map_app, fold_left_app, IH. cbn.
    unfold divergence_at. cbn. rewrite Nat.add_1_r. unfold Rdiv. ring.
Qed.

(** ** What the diagnostics store *)

Section Stored.

Context {num : Type} `{Number num}.

Local Open Scope num_scope.

(** What [computeTransport] stores. *)
Lemma transport_stored (e : EBM) :
  wf e ->
  let dx := #2 / #(size e) in
  let e' := computeTransport e in
  (forall i, (1 <= i <= bands e - 1)%nat ->
     let x_interface := - #1 + idx i * dx in
     _fluxBuffer e' !! i =
     Some (fround (- D (params e) * (#1 - x_interface * x_interface)
                   * ((rd (T e) i - rd (T e) (i - 1)) / dx)))) /\
  (forall i, (i < bands e)%nat ->
     transport e' !! i =
     Some (fround (- (rd (_fluxBuffer e') (i + 1) - rd (_fluxBuffer e') i) / dx))).
Proof.
  intros Hwf. cbv zeta. rewrite computeTransport_eq.
  cbn [_fluxBuffer transport set_transport set_fluxBuffer]. split.
  - intros i Hi. unfold flux_of, wr.
    rewrite !list_lookup_insert_ne by lia.
    rewrite lookup_fill_in; [reflexivity | lia |].
    rewrite (wf_fluxBuffer e Hwf). lia.
  - intros i Hi. rewrite lookup_fill_in; [reflexivity | lia |].
    rewrite (wf_transport e Hwf). exact Hi.
Qed.

(** What [updateDiagnostics] stores in the fields of the surface response. *)
Lemma surface_stored (e : EBM) (i : nat) :
  wf e -> (i < bands e)%nat ->
  let e' := updateDiagnostics e in
  albedo e' !! i =
    Some (fround (if iceThreshold (params e) >? rd (T e) i
                  then iceAlbedo (params e) else oceanAlbedo (params e))) /\
  ASR e' !! i = Some (fround (rd (insol e') i * (#1 - rd (albedo e') i))) /\
  OLR e' !! i = Some (fround (A (params e') + B (params e') * rd (T e') i)) /\
  T e' = T e /\ insol e' = insol e /\ params e' = params e.
Proof.
  intros Hwf Hi. cbv zeta.
  destruct (updateDiagnostics_frame e) as (Hp & _ & _ & _ & HT & Hins & _).
  cbv zeta in Hp, HT, Hins. rewrite Hp, HT, Hins.
  rewrite updateDiagnostics_eq, computeTransport_eq, computeAlbedo_eq.
  cbn [albedo ASR OLR set_transport set_fluxBuffer set_OLR set_ASR set_albedo].
  repeat split.
  - apply lookup_fill_in; [lia | rewrite (wf_albedo e Hwf); exact Hi].
  - rewrite lookup_fill_in; [reflexivity | lia | rewrite (wf_ASR e Hwf); exact Hi].
  - rewrite lookup_fill_in; [reflexivity | lia | rewrite (wf_OLR e Hwf); exact Hi].
Qed.

End Stored.

#[export] Instance IEEE_ltb : Irreflexive_ltb float.
Proof.
  intros a. cbn. rewrite ltb_spec. unfold SFltb.
  destruct (Prim2SF a) as [s|s| |s m e]; try destruct s; cbn; try reflexivity.
  - rewrite Z.compare_refl, Pos.compare_cont_refl. reflexivity.
  - rewrite Z.compare_refl, Pos.compare_cont_refl. reflexivity.
Qed.

#[export] Instance Exact_ltb : Irreflexive_ltb R.
Proof.
  intros a. cbn. unfold Real.ltb. destruct (Rlt_dec a a) as [Hlt|_]; [|reflexivity].
  exfalso. exact (Rlt_irrefl a Hlt).
Qed.

(** ** The grid *)

Section Grid.

Context {num : Type} `{Number num}.

Local Open Scope num_scope.

(** The grid of a constructed engine, band by band. *)
Lemma constructor_grid (n : Z) (p : EBMParams) (e : EBM) (i : nat) :
  constructor n p = inr e -> (i < Z.to_nat n)%nat ->
  x e !! i = Some (fround (xVal_at n i)) /\
  lat e !! i = Some (fround (lat_at n i)).
Proof.
  intros He Hi. apply constructor_inv in He as [Hn ->].
  rewrite initState_eq.
  destruct (updateDiagnostics_frame
              (set_T (fill 0 (bands (initGrid (allocated n p)))
                        (T0_at (initGrid (allocated n p)))
                        (T (initGrid (allocated n p))))
                 (initGrid (allocated n p)))) as (_ & _ & -> & -> & _).
  rewrite initGrid_eq.
  cbn [x lat set_T set_lat set_x allocated size bands].
  change (bands (allocated n p)) with (Z.to_nat n).
  split; (rewrite lookup_fill_in; [reflexivity | lia |]);
    rewrite length_replicate; exact Hi.
Qed.

End Grid.

(** The grid in exact arithmetic. *)
Lemma xVal_at_exact (n : Z) (i : nat) :
  (0 < n)%Z ->
  xVal_at (H := Exact) n i = (-1 + 2 * ((INR i + 1 / 2) / IZR n))%R.
Proof.
  intros Hn. unfold xVal_at, idx, dec. cbn.
  rewrite <- INR_IZR_INZ.
  assert (IZR n <> 0)%R as Hnz by (apply not_0_IZR; lia).
  field. exact Hnz.
Qed.

Lemma xVal_at_increasing (n : Z) (i j : nat) :
  (0 < n)%Z -> (i < j)%nat ->
  (xVal_at (H := Exact) n i < xVal_at (H := Exact) n j)%R.
Proof.
  intros Hn Hij. rewrite !xVal_at_exact by exact Hn.
  assert (0 < / IZR n)%R as Hinv by (apply Rinv_0_lt_compat, IZR_lt; exact Hn).
  assert (INR i < INR j)%R as Hlt by (apply lt_INR; exact Hij).
  unfold Rdiv. apply Rplus_lt_compat_l, Rmult_lt_compat_l; [lra|].
  apply Rmult_lt_compat_r; [exact Hinv | lra].
Qed.

Lemma xVal_at_first (n : Z) : (0 < n)%Z -> (-1 < xVal_at (H := Exact) n 0)%R.
Proof.
  intros Hn. rewrite xVal_at_exact by exact Hn.
  assert (0 < / IZR n)%R as Hinv by (apply Rinv_0_lt_compat, IZR_lt; exact Hn).
  cbn [INR]. unfold Rdiv. nra.
Qed.

Lemma xVal_at_last (n : Z) :
  (0 < n)%Z -> (xVal_at (H := Exact) n (Z.to_nat n - 1) < 1)%R.
Proof.
  intros Hn. rewrite xVal_at_exact by exact Hn.
  assert (0 < IZR n)%R as Hpos by (apply IZR_lt; exact Hn).
  assert (0 < / IZR n)%R as Hinv by (apply Rinv_0_lt_compat; exact Hpos).
  assert (INR (Z.to_nat n - 1) = IZR n - 1)%R as ->.
  { rewrite INR_IZR_INZ. rewrite <- minus_IZR. f_equal. lia. }
  replace ((IZR n - 1 + 1 / 2) / IZR n)%R with (1 - / IZR n / 2)%R
    by (field; lra).
  lra.
Qed.

(** ** The stored grid, checked band count by band count *)






(** * The claims *)

(** A constant of binary64 differs from another: their decodings differ. *)
Ltac float_neq :=
  let Heq := fresh in
  intros Heq; apply (f_equal Prim2SF) in Heq; vm_compute in Heq; discriminate Heq.

(** ** C1: the clock *)

(** C1 does not hold as the specification states it: an engine of 45 bands has
    no element 45, the NaN guard returns from [step(0.05)] in the first pass,
    and the clock keeps its value instead of advancing by 0.05. *)
Lemma C1_clock_kept_on_NaN_return :
  exists e r,
    constructor (H := IEEE) 45 DEFAULT_PARAMS = inr e /\
    step (dec 5 10) (dec 5 100) e = Some r /\
    exit r = NaNReturn /\
    time (engine r) = time e /\
    time (engine r) <> (time e + dec 5 100)%num.
Proof.
  eexists. eexists.
  split; [vm_compute; reflexivity|].
  split; [vm_compute; reflexivity|].
  split; [reflexivity|].
  split; [reflexivity|].
  vm_compute. float_neq.
Qed.

(** C1, as the code has it: every call of [step] returns; unless it returned
    through the NaN guard, [time] has grown by exactly the requested [dt] (also
    when the sub-step ceiling cut the loop short, and when the loop never ran);
    when the NaN guard returned, [time] is what it was. *)
Theorem C1_clock {num : Type} `{Number num} (random dt : num) (e : EBM) :
  exists r,
    step random dt e = Some r /\
    (exit r <> NaNReturn -> time (engine r) = (time e + dt)%num) /\
    (exit r = NaNReturn -> time (engine r) = time e).
Proof.
  destruct (step_total random dt e) as [r Hr]. exists r. split; [exact Hr|].
  apply step_inv in Hr
    as (r0 & Hrun & Hexit & _ & _ & _ & [[Hnan ->]|(Hlive & -> & _)]).
  - apply loop_run_frame in Hrun as (_ & _ & _ & _ & _ & Htime).
    split; [intros Hne; contradiction | intros _; exact Htime].
  - apply loop_run_frame in Hrun as (_ & _ & _ & _ & _ & Htime).
    rewrite Hexit. split; [intros _; cbn; rewrite Htime; reflexivity|].
    intros Habs. contradiction.
Qed.

(** ** C2: the NaN guard *)

(** C2 does not hold as the specification states it: 90 bands, the default
    parameters but [B = 1e38], and the request [step(0.001)].  [T[45]] is a
    number at the start and NaN after the second pass; the third pass is not a
    multiple of 100, so the guard is not evaluated and the bands are updated
    again; the call ends normally after four passes with nothing logged, [T[45]]
    still NaN and the clock advanced. *)
Lemma C2_NaN_goes_unnoticed :
  exists e e1 e2 e3 d1 d2 d3 rem1 rem2 rem3 r,
    constructor (H := IEEE) 90 hot_B = inr e /\
    isNaN (T e !! 45%nat) = false /\
    substep (safeDt e) e (dec 1 1000) 0 = Advance e1 d1 rem1 1 /\
    substep (safeDt e) e1 rem1 1 = Advance e2 d2 rem2 2 /\
    isNaN (T e2 !! 45%nat) = true /\
    substep (safeDt e) e2 rem2 2 = Advance e3 d3 rem3 3 /\
    T e3 <> T e2 /\
    step (dec 5 10) (dec 1 1000) e = Some r /\
    exit r = Exhausted /\ stepsTaken r = 4%Z /\ log r = [] /\
    isNaN (T (engine r) !! 45%nat) = true /\
    time (engine r) = (time e + dec 1 1000)%num.
Proof.
  do 11 eexists.
  split; [vm_compute; reflexivity|].
  split; [vm_compute; reflexivity|].
  split; [vm_compute; reflexivity|].
  split; [vm_compute; reflexivity|].
  split; [vm_compute; reflexivity|].
  split; [vm_compute; reflexivity|].
  split.
  { intros Heq. apply (f_equal (fun l : list float => Prim2SF (rd l 2))) in Heq.
    vm_compute in Heq. discriminate Heq. }
  split; [vm_compute; reflexivity|].
  repeat split; vm_compute; reflexivity.
Qed.

(** C2, as the code has it: the guard is evaluated only in a pass whose number
    is a multiple of 100, the first pass of a call included.  There, if [T[45]]
    is NaN or absent, the pass ends the call after the diagnostic refresh and
    one error line: no band is updated in that pass or later, [T] and [time] are
    what they were when the pass began.  In any other pass the bands are
    updated, NaN or not.  Nothing is thrown: [step] always returns, and when it
    returned through the guard the clock is the one of the call's start and the
    log is the error line alone. *)
Theorem C2_NaN_guard {num : Type} `{Number num} (safeDt rem random dt : num)
    (k : Z) (e : EBM) :
  (Z.rem k 100 = 0%Z -> isNaN (T e !! 45%nat) = true ->
   exists entry,
     substep safeDt e rem k = Abort (updateDiagnostics e) entry /\
     T (updateDiagnostics e) = T e /\ time (updateDiagnostics e) = time e) /\
  (Z.rem k 100 <> 0%Z ->
   substep safeDt e rem k =
   Advance (euler (Math_min rem safeDt) (updateDiagnostics e)) (Math_min rem safeDt)
     (rem - Math_min rem safeDt)%num (k + 1)) /\
  (exists r,
     step random dt e = Some r /\
     ((dt >? dec 1 1000000)%num = true -> isNaN (T e !! 45%nat) = true ->
      exit r = NaNReturn /\ stepsTaken r = 0%Z /\ engine r = updateDiagnostics e) /\
     (exit r = NaNReturn ->
      Z.rem (stepsTaken r) 100 = 0%Z /\
      isNaN (T (engine r) !! 45%nat) = true /\
      time (engine r) = time e /\
      log r = [console_error (time (engine r)) (T (engine r) !! 45%nat)
                 (albedo (engine r) !! 45%nat) (ASR (engine r) !! 45%nat)
                 (OLR (engine r) !! 45%nat)])).
Proof.
  split; [|split].
  - intros Hk Hnan.
    destruct (substep_cases safeDt e rem k) as [(_ & _ & Ha)|([Hk'|Hno] & _)].
    + cbv zeta in Ha. eexists. split; [exact Ha|].
      destruct (updateDiagnostics_frame e) as (_ & _ & _ & _ & HT & _ & Htime).
      split; assumption.
    + contradiction.
    + rewrite Hnan in Hno. discriminate.
  - intros Hk.
    destruct (substep_cases safeDt e rem k) as [(Hk' & _)|(_ & Ha)];
      [contradiction | exact Ha].
  - destruct (step_total random dt e) as [r Hr]. exists r. split; [exact Hr|]. split.
    + intros Hdt Hnan.
      pose proof (step_returns_at_once random dt e Hdt Hnan) as Hat.
      cbv zeta in Hat. rewrite Hat in Hr. injection Hr as <-.
      repeat split; reflexivity.
    + intros Hexit.
      apply step_inv in Hr
        as (r0 & Hrun & Hexit0 & _ & _ & _ & [[_ ->]|(Hlive & _)]);
        [|rewrite Hexit in Hexit0; symmetry in Hexit0; contradiction].
      pose proof (loop_run_exit _ _ _ _ _ _ Hrun) as Hout. rewrite Hexit in Hout.
      destruct Hout as (Hrem & Hnan & Hlog).
      apply loop_run_frame in Hrun as (_ & _ & _ & _ & _ & Htime).
      repeat split; assumption.
Qed.

(** ** C3: band counts that are not positive *)

(** C3 does not hold as the specification states it: a band count of 0 is
    accepted; the engine it gives has no band at all. *)
Lemma C3_zero_bands_accepted :
  exists e,
    constructor (H := IEEE) 0 DEFAULT_PARAMS = inr e /\
    size e = 0%Z /\ T e = [] /\ lat e = [].
Proof.
  eexists. split; [vm_compute; reflexivity|]. repeat split; reflexivity.
Qed.

(** C3, as the code has it: the constructor validates nothing itself.  A
    negative band count is refused, by the first array allocation, with a
    RangeError; the band count 0 is accepted and gives an engine whose arrays
    are empty (the flux buffer has its one element). *)
Theorem C3_nonpositive_band_count {num : Type} `{Number num} (n : Z) (p : EBMParams) :
  (n <= 0)%Z ->
  ((n < 0)%Z /\ constructor n p = inl RangeError) \/
  (n = 0%Z /\
   exists e, constructor n p = inr e /\ size e = 0%Z /\
             lat e = [] /\ x e = [] /\ T e = [] /\ albedo e = [] /\ insol e = [] /\
             ASR e = [] /\ OLR e = [] /\ transport e = [] /\
             length (_fluxBuffer e) = 1%nat).
Proof.
  intros Hn. destruct (Z.eq_dec n 0) as [->|Hne].
  - right. split; [reflexivity|].
    destruct (constructor 0 p) as [err|e] eqn:He;
      [rewrite constructor_ok in He by lia; discriminate|].
    exists e. split; [reflexivity|].
    apply constructor_wf in He as (Hwf & Hsize & _).
    destruct Hwf as [_ Hlat Hx HT Halb Hins HASR HOLR Htr Hflux].
    unfold bands in *. rewrite Hsize in *. cbn in *.
    repeat split; first [assumption | apply length_zero_iff_nil; assumption].
  - left. split; [lia|]. apply constructor_fail. lia.
Qed.

Lemma C3_nonpositive_band_count_witness :
  constructor (H := IEEE) (-1) DEFAULT_PARAMS = inl RangeError.
Proof.
  destruct (C3_nonpositive_band_count (H := IEEE) (-1) DEFAULT_PARAMS) as [[_ He]|[H0 _]].
  - lia.
  - exact He.
  - discriminate H0.
Defined.

(** ** C4: the sub-steps *)

(** C4 does not hold as the specification states it: the call the application
    makes, [step(0.05)] on the default engine of 90 bands, takes 152 sub-steps
    without either guard cutting in and leaves the loop with 5.14e-7 of the
    request still to do: the sub-steps do not add up to [dt]. *)
Lemma C4_request_not_used_up :
  exists e r,
    constructor (H := IEEE) 90 DEFAULT_PARAMS = inr e /\
    step (dec 5 10) (dec 5 100) e = Some r /\
    exit r = Exhausted /\ stepsTaken r = 152%Z /\
    PrimFloat.ltb 0 (timeRemaining r) = true /\
    fold_left PrimFloat.add (taken r) 0%float <> dec 5 100.
Proof.
  eexists. eexists.
  split; [vm_compute; reflexivity|].
  split; [vm_compute; reflexivity|].
  split; [reflexivity|].
  split; [reflexivity|].
  split; [vm_compute; reflexivity|].
  vm_compute. float_neq.
Qed.

(** C4, as the code has it: in every pass that updates the bands, [dt_sub] is
    the smaller of the time remaining and [safeDt = (dx^2 / (2*D + 0.001)) *
    0.8], [dx = 2/N]; every band becomes [T[i] + ((ASR[i] - OLR[i] +
    transport[i]) / 10) * dt_sub], through the store of its Float32Array, with
    the diagnostics refreshed in that pass; and the time remaining drops by
    [dt_sub].  A call returns, and what it leaves of the request is [dt] less
    the sub-steps taken, one by one; when the loop ends by its condition this
    remainder is not above 0.000001, and it need not be zero.  In exact
    arithmetic: the sub-steps sum to [dt] less a remainder of at most 0.000001. *)
Theorem C4_substeps {num : Type} `{Number num} (e e0 : EBM) (random dt rem : num)
    (k : Z) (eR : EBM (num := R)) (randomR dtR : R) :
  wf e0 ->
  let dx := (#2 / #(size e))%num in
  let safe := ((dx * dx) / (#2 * D (params e) + dec 1 1000) * dec 8 10)%num in
  (forall e' d rem' k',
     substep safe e0 rem k = Advance e' d rem' k' ->
     let e1 := updateDiagnostics e0 in
     d = Math_min rem safe /\ rem' = (rem - d)%num /\ k' = (k + 1)%Z /\
     forall i, (i < bands e0)%nat ->
       T e' !! i =
       Some (fround (rd (T e1) i
                     + ((rd (ASR e1) i - rd (OLR e1) i + rd (transport e1) i) / #10)
                       * d)%num)) /\
  (exists r,
     step random dt e = Some r /\
     substeps safe dt (taken r) /\
     timeRemaining r = fold_left n_sub (taken r) dt /\
     stepsTaken r = Z.of_nat (length (taken r)) /\
     (exit r = Exhausted -> (timeRemaining r >? dec 1 1000000)%num = false)) /\
  (exists r,
     step randomR dtR eR = Some r /\
     fold_left Rplus (taken r) 0%R = (dtR - timeRemaining r)%R /\
     (exit r = Exhausted -> (timeRemaining r <= 1 / 1000000)%R)).
Proof.
  intros Hwf dx safe. split; [|split].
  - intros e' d rem' k' Hsub e1.
    pose proof (substep_bands _ _ _ _ _ _ _ _ Hwf Hsub) as Hbands.
    apply substep_advance_inv in Hsub as (_ & Hd & Hrem & Hk).
    repeat split; try assumption.
  - exact (step_budget random dt e).
  - destruct (step_budget randomR dtR eR) as (r & Hr & _ & Hrest & _ & Hexit).
    exists r. split; [exact Hr|]. split.
    + rewrite Hrest. change (@n_sub R Exact) with Rminus.
      rewrite fold_left_Rminus. lra.
    + intros Hex. apply Hexit in Hex. apply Real_ltb_false in Hex.
      cbn in Hex. lra.
Qed.

Lemma C4_substeps_witness :
  exists e r,
    constructor (H := IEEE) 46 DEFAULT_PARAMS = inr e /\
    step (dec 5 10) (dec 2 1000) e = Some r /\
    timeRemaining r = fold_left PrimFloat.sub (taken r) (dec 2 1000) /\
    stepsTaken r = Z.of_nat (length (taken r)).
Proof.
  eexists.
  assert (constructor (H := IEEE) 46 DEFAULT_PARAMS = inr ?[e]) as He
    by (vm_compute; reflexivity).
  match type of He with
  | _ = inr ?e =>
      destruct (C4_substeps e e (dec 5 10) (dec 2 1000) (dec 2 1000) 0
                  (allocated 0 DEFAULT_PARAMS) 0%R 0%R)
        as (_ & (r & Hr & _ & Hrest & Hsteps & _) & _)
  end.
  - repeat split; vm_compute; first [reflexivity | discriminate].
  - exists r. repeat split; assumption.
Defined.

(** ** C5: the boundary fluxes and the total transport *)

(** C5 does not hold as the specification states it: on the default engine of 90
    bands the transport of the bands, added up, is -3.43e-5 and not zero. *)
Lemma C5_transport_sum_not_zero :
  exists e,
    constructor (H := IEEE) 90 DEFAULT_PARAMS = inr e /\
    _fluxBuffer (computeTransport e) !! 0%nat = Some 0%float /\
    _fluxBuffer (computeTransport e) !! 90%nat = Some 0%float /\
    PrimFloat.ltb (fold_left PrimFloat.add (transport (computeTransport e)) 0%float) 0
    = true /\
    fold_left PrimFloat.add (transport (computeTransport e)) 0%float <> 0%float.
Proof.
  eexists.
  split; [vm_compute; reflexivity|].
  split; [vm_compute; reflexivity|].
  split; [vm_compute; reflexivity|].
  split; [vm_compute; reflexivity|].
  vm_compute. float_neq.
Qed.

(** C5, as the code has it: after [computeTransport] the two boundary fluxes are
    exactly zero, [flux[0] = flux[N] = 0], in the program's arithmetic as in
    exact arithmetic.  The transport of the bands sums to exactly zero in
    exact arithmetic; in the program's arithmetic each band's transport is
    rounded on its own and the sum need not be zero. *)
Theorem C5_boundary_and_sum (eF : EBM (num := float)) (eR : EBM (num := R)) :
  wf eF -> wf eR ->
  (_fluxBuffer (computeTransport eF) !! 0%nat = Some 0%float /\
   _fluxBuffer (computeTransport eF) !! bands eF = Some 0%float) /\
  (_fluxBuffer (computeTransport eR) !! 0%nat = Some 0%R /\
   _fluxBuffer (computeTransport eR) !! bands eR = Some 0%R /\
   fold_left Rplus (transport (computeTransport eR)) 0%R = 0%R).
Proof.
  intros HwfF HwfR. split.
  - exact (boundary_flux eF HwfF).
  - destruct (boundary_flux eR HwfR) as [H0 HN]. cbn in H0, HN.
    split; [exact H0|]. split; [exact HN|].
    assert (rd (_fluxBuffer (computeTransport eR)) 0 = 0%R) as R0
      by (unfold rd; rewrite H0; reflexivity).
    assert (rd (_fluxBuffer (computeTransport eR)) (bands eR) = 0%R) as RN
      by (unfold rd; rewrite HN; reflexivity).
    rewrite computeTransport_eq in R0, RN |- *.
    cbn [_fluxBuffer transport set_transport set_fluxBuffer] in R0, RN |- *.
    rewrite (fill_whole (H := Exact)) by apply (wf_transport eR HwfR).
    cbn [fround Exact].
    rewrite (sum_divergence _ (flux_of eR) (bands eR)), R0, RN.
    unfold Rdiv. ring.
Qed.

Lemma C5_boundary_and_sum_witness :
  exists eF eR,
    constructor (H := IEEE) 4 DEFAULT_PARAMS = inr eF /\
    constructor (H := Exact) 4 DEFAULT_PARAMS = inr eR /\
    _fluxBuffer (computeTransport eF) !! 4%nat = Some 0%float /\
    fold_left Rplus (transport (computeTransport eR)) 0%R = 0%R.
Proof.
  eexists. eexists.
  assert (constructor (H := IEEE) 4 DEFAULT_PARAMS = inr ?[eF]) as HF
    by (vm_compute; reflexivity).
  assert (constructor (H := Exact) 4 DEFAULT_PARAMS = inr ?[eR]) as HR
    by (apply constructor_ok; lia).
  split; [exact HF|]. split; [exact HR|].
  match type of HF with
  | _ = inr ?e =>
      destruct (C5_boundary_and_sum e (initState (initGrid (allocated 4 DEFAULT_PARAMS))))
        as ((_ & HN) & (_ & _ & Hsum))
  end.
  - repeat split; vm_compute; first [reflexivity | discriminate].
  - apply (constructor_wf 4 DEFAULT_PARAMS). exact HR.
  - split; [exact HN | exact Hsum].
Defined.

(** ** C6: the transport operator *)

(** C6: after [computeTransport], with [dx = 2/N], every interface [1 <= i <=
    N-1] holds the flux [-D * (1 - x_interface^2) * (T[i] - T[i-1]) / dx],
    [x_interface = -1 + i*dx], and every band [i < N] holds the divergence
    [-(flux[i+1] - flux[i]) / dx] of the fluxes just stored.  In the program's
    arithmetic, and in any other, each value is computed in the order of the
    source and goes through the store of its Float32Array; in exact arithmetic
    the equations hold as they are written. *)
Theorem C6_transport {num : Type} `{Number num} (e : EBM) (eR : EBM (num := R)) :
  wf e -> wf eR ->
  (let dx := (#2 / #(size e))%num in
   let e' := computeTransport e in
   (forall i, (1 <= i <= bands e - 1)%nat ->
      let x_interface := (- #1 + idx i * dx)%num in
      _fluxBuffer e' !! i =
      Some (fround (- D (params e) * (#1 - x_interface * x_interface)
                    * ((rd (T e) i - rd (T e) (i - 1)) / dx))%num)) /\
   (forall i, (i < bands e)%nat ->
      transport e' !! i =
      Some (fround (- (rd (_fluxBuffer e') (i + 1) - rd (_fluxBuffer e') i) / dx)%num)))
  /\
  (let dx := (2 / IZR (size eR))%R in
   let e' := computeTransport eR in
   (forall i, (1 <= i <= bands eR - 1)%nat ->
      let x_interface := (-1 + INR i * dx)%R in
      rd (_fluxBuffer e') i =
      (- D (params eR) * (1 - x_interface ^ 2)
       * (rd (T eR) i - rd (T eR) (i - 1)) / dx)%R) /\
   (forall i, (i < bands eR)%nat ->
      rd (transport e') i =
      (- (rd (_fluxBuffer e') (i + 1) - rd (_fluxBuffer e') i) / dx)%R)).
Proof.
  intros Hwf HwfR. split; [exact (transport_stored e Hwf)|].
  destruct (transport_stored eR HwfR) as [Hflux Htr]. cbv zeta in Hflux, Htr |- *.
  split.
  - intros i Hi. unfold rd at 1. rewrite (Hflux i Hi). cbn.
    unfold idx. cbn. rewrite <- INR_IZR_INZ. unfold Rdiv. ring.
  - intros i Hi. unfold rd at 1. rewrite (Htr i Hi). reflexivity.
Qed.

Lemma C6_transport_witness :
  exists e eR,
    constructor (H := IEEE) 4 DEFAULT_PARAMS = inr e /\
    constructor (H := Exact) 4 DEFAULT_PARAMS = inr eR /\
    transport (computeTransport e) !! 0%nat =
    Some (fround (- (rd (_fluxBuffer (computeTransport e)) 1
                     - rd (_fluxBuffer (computeTransport e)) 0) / (#2 / #4))%num) /\
    rd (transport (computeTransport eR)) 0 =
    (- (rd (_fluxBuffer (computeTransport eR)) 1
        - rd (_fluxBuffer (computeTransport eR)) 0) / (2 / 4))%R.
Proof.
  eexists. eexists.
  assert (constructor (H := IEEE) 4 DEFAULT_PARAMS = inr ?[e]) as He
    by (vm_compute; reflexivity).
  assert (constructor (H := Exact) 4 DEFAULT_PARAMS = inr ?[eR]) as HeR
    by (apply constructor_ok; lia).
  split; [exact He|]. split; [exact HeR|].
  match type of He with
  | _ = inr ?e =>
      destruct (C6_transport e (initState (initGrid (allocated 4 DEFAULT_PARAMS))))
        as ((_ & Htr) & (_ & HtrR))
  end.
  - repeat split; vm_compute; first [reflexivity | discriminate].
  - apply (constructor_wf 4 DEFAULT_PARAMS). exact HeR.
  - split.
    + apply (Htr 0%nat). vm_compute. lia.
    + rewrite (HtrR 0%nat).
      * rewrite (proj1 (proj2 (constructor_wf _ _ _ HeR))). reflexivity.
      * rewrite (constructor_bands _ _ _ HeR). vm_compute. lia.
Defined.

(** ** C7: albedo and radiation *)

(** C7: after a diagnostic refresh, band [i] has the ice albedo when
    [iceThreshold > T[i]] and the ocean albedo otherwise, so the ocean
    albedo when [T[i]] is the threshold itself; [ASR[i]] is
    [insol[i] * (1 - albedo[i])] with the albedo just stored, and [OLR[i]]
    is [A + B * T[i]].  In the program's arithmetic, and in any other where
    nothing is below itself, each value goes through the store of its
    Float32Array; in exact arithmetic the equations hold as they are
    written.  The refresh changes neither [T] nor [insol] nor the
    parameters. *)
Theorem C7_surface_response {num : Type} `{Irreflexive_ltb num} (e : EBM)
    (eR : EBM (num := R)) (i : nat) :
  wf e -> wf eR -> (i < bands e)%nat -> (i < bands eR)%nat ->
  (let e' := updateDiagnostics e in
   albedo e' !! i =
     Some (fround (if (iceThreshold (params e) >? rd (T e) i)%num
                   then iceAlbedo (params e) else oceanAlbedo (params e))) /\
   (rd (T e) i = iceThreshold (params e) ->
    albedo e' !! i = Some (fround (oceanAlbedo (params e)))) /\
   ASR e' !! i = Some (fround (rd (insol e') i * (#1 - rd (albedo e') i))%num) /\
   OLR e' !! i = Some (fround (A (params e') + B (params e') * rd (T e') i)%num) /\
   T e' = T e /\ insol e' = insol e /\ params e' = params e)
  /\
  (let e' := updateDiagnostics eR in
   ((iceThreshold (params eR) > rd (T eR) i)%R ->
    rd (albedo e') i = iceAlbedo (params eR)) /\
   (~ (iceThreshold (params eR) > rd (T eR) i)%R ->
    rd (albedo e') i = oceanAlbedo (params eR)) /\
   rd (ASR e') i = (rd (insol eR) i * (1 - rd (albedo e') i))%R /\
   rd (OLR e') i = (A (params eR) + B (params eR) * rd (T eR) i)%R).
Proof.
  intros Hwf HwfR Hi HiR. split.
  - destruct (surface_stored e i Hwf Hi) as (Halb & HASR & HOLR & HT & Hins & Hp).
    cbv zeta in Halb, HASR, HOLR, HT, Hins, Hp |- *.
    repeat split; try assumption.
    intros Heq. rewrite Halb, Heq, ltb_irrefl. reflexivity.
  - destruct (surface_stored eR i HwfR HiR) as (Halb & HASR & HOLR & HT & Hins & Hp).
    cbv zeta in Halb, HASR, HOLR, HT, Hins, Hp |- *.
    repeat split.
    + intros Hgt. unfold rd at 1. rewrite Halb. cbn. unfold Real.ltb.
      destruct (Rlt_dec (rd (T eR) i) (iceThreshold (params eR))); [reflexivity | lra].
    + intros Hle. unfold rd at 1. rewrite Halb. cbn. unfold Real.ltb.
      destruct (Rlt_dec (rd (T eR) i) (iceThreshold (params eR))); [lra | reflexivity].
    + unfold rd at 1. rewrite HASR, Hins. reflexivity.
    + unfold rd at 1. rewrite HOLR, HT, Hp. reflexivity.
Qed.

Lemma C7_surface_response_witness :
  exists e eR,
    constructor (H := IEEE) 4 DEFAULT_PARAMS = inr e /\
    constructor (H := Exact) 4 DEFAULT_PARAMS = inr eR /\
    albedo (updateDiagnostics e) !! 0%nat = Some (fround (oceanAlbedo DEFAULT_PARAMS)) /\
    OLR (updateDiagnostics e) !! 0%nat =
    Some (fround (A DEFAULT_PARAMS + B DEFAULT_PARAMS * rd (T e) 0)%num) /\
    rd (OLR (updateDiagnostics eR)) 0 = (210 + 2 * rd (T eR) 0)%R.
Proof.
  eexists. eexists.
  assert (constructor (H := IEEE) 4 DEFAULT_PARAMS = inr ?[e]) as He
    by (vm_compute; reflexivity).
  assert (constructor (H := Exact) 4 DEFAULT_PARAMS = inr ?[eR]) as HeR
    by (apply constructor_ok; lia).
  split; [exact He|]. split; [exact HeR|].
  match type of He with
  | _ = inr ?e =>
      destruct (C7_surface_response (H0 := IEEE_ltb) e
                  (initState (initGrid (allocated 4 DEFAULT_PARAMS))) 0%nat)
        as ((Halb & _ & _ & HOLR & HT & _) & (_ & _ & _ & HOLRR))
  end.
  - repeat split; vm_compute; first [reflexivity | discriminate].
  - apply (constructor_wf 4 DEFAULT_PARAMS). exact HeR.
  - vm_compute. lia.
  - rewrite (constructor_bands _ _ _ HeR). vm_compute. lia.
  - split; [exact Halb|]. split; [rewrite HOLR, HT; reflexivity|].
    rewrite HOLRR. rewrite (proj2 (proj2 (constructor_wf _ _ _ HeR))). reflexivity.
Defined.

(** ** C8: the grid *)




(** ** C9: insolation is not refreshed *)

(** C9: neither a diagnostic refresh nor a call of [step] (which returns,
    whatever the request) changes [insol]; [computeInsolation] is the one
    method that writes it. *)
Theorem C9_insol_frame {num : Type} `{Number num} (random dt : num) (e : EBM) :
  insol (updateDiagnostics e) = insol e /\
  insol (computeAlbedo e) = insol e /\
  insol (computeTransport e) = insol e /\
  exists r, step random dt e = Some r /\ insol (engine r) = insol e.
Proof.
  split; [apply updateDiagnostics_frame|].
  split; [rewrite computeAlbedo_eq; reflexivity|].
  split; [rewrite computeTransport_eq; reflexivity|].
  destruct (step_total random dt e) as [r Hr]. exists r. split; [exact Hr|].
  apply step_inv in Hr as (r0 & Hrun & _ & _ & _ & _ & [[_ ->]|(_ & -> & _)]);
    apply loop_run_frame in Hrun as (_ & _ & _ & _ & Hinsol & _); exact Hinsol.
Qed.

(** ** C10: grids without a band 45 *)

(** C10 does not hold as it is stated: with 45 bands and the positive request
    [dt = 0.0000005] the loop is never entered, nothing returns early, and
    the clock does advance. *)
Lemma C10_tiny_request_advances_clock :
  exists e r,
    constructor (H := IEEE) 45 DEFAULT_PARAMS = inr e /\
    n_ltb (Number := IEEE) (of_Z 0) (dec 5 10000000) = true /\
    step (dec 5 10) (dec 5 10000000) e = Some r /\
    exit r = Exhausted /\ stepsTaken r = 0%Z /\
    time (engine r) = (time e + dec 5 10000000)%num /\
    time (engine r) <> time e.
Proof.
  eexists. eexists.
  split; [vm_compute; reflexivity|].
  split; [vm_compute; reflexivity|].
  split; [vm_compute; reflexivity|].
  split; [reflexivity|].
  split; [reflexivity|].
  split; [vm_compute; reflexivity|].
  vm_compute. float_neq.
Qed.

(** C10, as the code has it: for an engine of at most 45 bands whose arrays
    have one element per band (the engine as constructed, and as any method
    or the parameter effect leaves it) and a request above the loop's
    threshold, [dt > 0.000001], [step] returns in its first pass, after the
    diagnostic refresh and the error line and before any Euler update: no
    sub-step is counted, [T] and [time] are what they were. *)
Theorem C10_no_sentinel {num : Type} `{Number num} (e : EBM) (random dt : num) :
  wf e -> (size e <= 45)%Z -> (dt >? dec 1 1000000)%num = true ->
  exists r,
    step random dt e = Some r /\
    exit r = NaNReturn /\ stepsTaken r = 0%Z /\ taken r = [] /\
    engine r = updateDiagnostics e /\
    T (engine r) = T e /\ time (engine r) = time e /\
    log r = [console_error (time e) None None None None].
Proof.
  intros Hwf Hn Hdt.
  pose proof (no_band_45 e Hwf Hn) as HT.
  assert (isNaN (T e !! 45%nat) = true) as Hnan by (rewrite HT; reflexivity).
  pose proof (step_returns_at_once random dt e Hdt Hnan) as Hstep. cbv zeta in Hstep.
  eexists. split; [exact Hstep|]. cbn.
  destruct (updateDiagnostics_frame e) as (_ & _ & _ & _ & HT' & _ & Htime).
  pose proof (wf_updateDiagnostics e Hwf) as Hwf'.
  assert (bands (updateDiagnostics e) <= 45)%nat as Hb.
  { unfold bands. destruct (updateDiagnostics_frame e) as (_ & -> & _). lia. }
  repeat split; try assumption.
  rewrite HT. repeat f_equal; apply lookup_ge_None_2.
  - rewrite (wf_albedo _ Hwf'). exact Hb.
  - rewrite (wf_ASR _ Hwf'). exact Hb.
  - rewrite (wf_OLR _ Hwf'). exact Hb.
Qed.

Lemma C10_no_sentinel_witness :
  exists e0 r,
    constructor (H := IEEE) 45 DEFAULT_PARAMS = inr e0 /\
    step (dec 5 10) (dec 5 100) (computeInsolation e0) = Some r /\
    exit r = NaNReturn /\
    T (engine r) = T (computeInsolation e0) /\
    time (engine r) = time (computeInsolation e0).
Proof.
  eexists.
  assert (constructor (H := IEEE) 45 DEFAULT_PARAMS = inr ?[e]) as He
    by (vm_compute; reflexivity).
  destruct (constructor_wf 45 DEFAULT_PARAMS _ He) as (Hwf & Hsize & _).
  match type of He with _ = inr ?e0 =>
    destruct (C10_no_sentinel (computeInsolation e0) (dec 5 10) (dec 5 100))
      as (r & Hstep & Hexit & _ & _ & _ & HT & Htime & _)
  end.
  - apply wf_computeInsolation. exact Hwf.
  - rewrite computeInsolation_eq. cbn [size set_insol]. lia.
  - vm_compute. reflexivity.
  - exists r. repeat split; assumption.
Defined.
(** * Further properties of the engine *)

(** ** Lengths, the grid, and a refresh done twice *)

Section Invariants.

Context {num : Type} `{Number num}.

Local Open Scope num_scope.

Lemma lookup_wr (arr : Float32Array) (i j : nat) (v : num) :
  wr arr i v !! j =
  if decide (i = j /\ (i < length arr)%nat) then Some (fround v) else arr !! j.
Proof. unfold wr. apply list_lookup_insert. Qed.

Lemma length_wr (arr : Float32Array) (i : nat) (v : num) :
  length (wr arr i v) = length arr.
Proof. unfold wr. apply length_insert. Qed.

(** Filling again what was just filled changes nothing. *)
Lemma fill_twice (lo hi : nat) (v w : nat -> num) (arr : Float32Array) :
  (forall i, (lo <= i < hi)%nat -> w i = v i) ->
  fill lo hi w (fill lo hi v arr) = fill lo hi v arr.
Proof.
  intros Hwv. apply list_eq. intros j.
  destruct (le_lt_dec lo j) as [Hlo|Hlo]; [destruct (le_lt_dec hi j) as [Hhi|Hhi]|].
  - rewrite !lookup_fill_out by lia. reflexivity.
  - destruct (le_lt_dec (length arr) j) as [Hlen|Hlen].
    + rewrite !(lookup_ge_None_2 _ j) by (rewrite !length_fill; exact Hlen). reflexivity.
    + rewrite !lookup_fill_in by (rewrite ?length_fill; lia).
      rewrite Hwv by lia. reflexivity.
  - rewrite !lookup_fill_out by lia. reflexivity.
Qed.

Lemma flux_of_twice (e e' : EBM) :
  size e' = size e -> params e' = params e -> T e' = T e ->
  _fluxBuffer e' = flux_of e ->
  flux_of e' = flux_of e.
Proof.
  intros Hsize Hp HT Hflux.
  assert (bands e' = bands e) as Hb by (unfold bands; rewrite Hsize; reflexivity).
  assert (forall i, flux_at e' i = flux_at e i) as Hat
    by (intros i; unfold flux_at; rewrite Hsize, Hp, HT; reflexivity).
  unfold flux_of at 1. rewrite Hb, Hflux.
  rewrite (fill_ext 1 (bands e) (flux_at e') (flux_at e)) by (intros i _; apply Hat).
  apply list_eq. intros j.
  assert (length (flux_of e) = length (_fluxBuffer e)) as Hlen by apply length_flux_of.
  rewrite !lookup_wr, !length_wr, !length_fill, Hlen.
  unfold flux_of. rewrite !lookup_wr, !length_wr, !length_fill.
  destruct (decide (bands e = j /\ (bands e < length (_fluxBuffer e))%nat)) as [Hn|Hn];
    [reflexivity|].
  destruct (decide (0%nat = j /\ (0 < length (_fluxBuffer e))%nat)) as [H0|H0];
    [reflexivity|].
  destruct (le_lt_dec 1 j) as [H1|H1]; [destruct (le_lt_dec (bands e) j) as [Hhi|Hhi]|].
  - rewrite !lookup_fill_out by lia. rewrite !lookup_wr, !length_wr, !length_fill.
    rewrite !decide_False by assumption. rewrite lookup_fill_out by lia. reflexivity.
  - destruct (le_lt_dec (length (_fluxBuffer e)) j) as [Hge|Hlt].
    + rewrite !(lookup_ge_None_2 _ j); [reflexivity | |];
        rewrite ?length_fill, ?length_wr, ?length_fill; exact Hge.
    + rewrite !lookup_fill_in; [reflexivity | lia | lia | lia |].
      rewrite !length_wr, length_fill. exact Hlt.
  - rewrite !lookup_fill_out by lia. rewrite !lookup_wr, !length_wr, !length_fill.
    rewrite !decide_False by assumption. rewrite lookup_fill_out by lia. reflexivity.
Qed.

(** What a refresh leaves, field by field. *)
Lemma updateDiagnostics_fields (e : EBM) :
  let e' := updateDiagnostics e in
  let al := fill 0 (bands e) (albedo_at e) (albedo e) in
  albedo e' = al /\
  ASR e' = fill 0 (bands e) (fun i => rd (insol e) i * (#1 - rd al i)) (ASR e) /\
  OLR e' = fill 0 (bands e) (OLR_at e) (OLR e) /\
  _fluxBuffer e' = flux_of e /\
  transport e' =
  fill 0 (bands e) (divergence_at (#2 / #(size e)) (flux_of e)) (transport e).
Proof.
  cbv zeta. rewrite updateDiagnostics_eq, computeTransport_eq, computeAlbedo_eq.
  cbn [albedo ASR OLR _fluxBuffer transport set_transport set_fluxBuffer set_OLR
       set_ASR set_albedo size bands].
  repeat split.
Qed.

End Invariants.

(** A refresh depends on [T], [insol] and the parameters alone, which it
    does not touch. *)
Lemma updateDiagnostics_twice {num : Type} `{Number num} (e : EBM) :
  updateDiagnostics (updateDiagnostics e) = updateDiagnostics e.
Proof.
  destruct (updateDiagnostics_frame e) as (Hp & Hsize & Hlat & Hx & HT & Hins & Htime).
  destruct (updateDiagnostics_frame (updateDiagnostics e))
    as (Hp' & Hsize' & Hlat' & Hx' & HT' & Hins' & Htime').
  destruct (updateDiagnostics_fields e) as (Hal & HASR & HOLR & Hflux & Htr).
  destruct (updateDiagnostics_fields (updateDiagnostics e))
    as (Hal' & HASR' & HOLR' & Hflux' & Htr').
  cbv zeta in *.
  assert (bands (updateDiagnostics e) = bands e) as Hb
    by (unfold bands; rewrite Hsize; reflexivity).
  assert (albedo (updateDiagnostics (updateDiagnostics e)) = albedo (updateDiagnostics e))
    as Ealb.
  { rewrite Hal', Hb, Hal. apply fill_twice. intros i _.
    unfold albedo_at. rewrite HT, Hp. reflexivity. }
  assert (flux_of (updateDiagnostics e) = flux_of e) as Eflux
    by (apply flux_of_twice; assumption).
  rewrite (EBM_eta (updateDiagnostics (updateDiagnostics e))).
  rewrite (EBM_eta (updateDiagnostics e)) at 13.
  f_equal; try congruence.
  - rewrite Hal', Hb, Hal in Ealb.
    rewrite HASR', Hb, Hal, Ealb, HASR, Hins. apply fill_twice. intros i _. reflexivity.
  - rewrite HOLR', Hb, HOLR. apply fill_twice. intros i _.
    unfold OLR_at. rewrite HT, Hp. reflexivity.
  - rewrite Htr', Hb, Htr, Hsize, Eflux. apply fill_twice. intros i _. reflexivity.
Qed.


Lemma set_insol_same {num : Type} `{Number num} (e : @EBM num) :
  set_insol (insol e) e = e.
Proof. destruct e. reflexivity. Qed.

(** [computeInsolation] finds nothing to change on an engine whose
    insolation was computed from the same grid and solar constant. *)
Lemma computeInsolation_fixed {num : Type} `{Number num} (e e0 : EBM)
    (arr : Float32Array) :
  insol e = fill 0 (bands e) (insol_at e0) arr ->
  x e = x e0 -> S0 (params e) = S0 (params e0) ->
  computeInsolation e = e.
Proof.
  intros Hins Hx HS. rewrite computeInsolation_eq.
  transitivity (set_insol (insol e) e); [f_equal | apply set_insol_same].
  rewrite Hins. apply fill_twice. intros i _.
  unfold insol_at. rewrite Hx, HS. reflexivity.
Qed.

(** X3.  A refresh done twice is a refresh done once, and so is
    [computeInsolation]: neither reads what it writes. *)
Theorem X3_refresh_idempotent {num : Type} `{Number num} (e : EBM) :
  updateDiagnostics (updateDiagnostics e) = updateDiagnostics e /\
  computeInsolation (computeInsolation e) = computeInsolation e.
Proof.
  split; [apply updateDiagnostics_twice|].
  pose proof (computeInsolation_eq e) as Heq.
  apply (computeInsolation_fixed (computeInsolation e) e (insol e)).
  - rewrite Heq. reflexivity.
  - rewrite Heq. reflexivity.
  - rewrite Heq. reflexivity.
Qed.

(** X1.  The arrays of a constructed engine have one element per band, the
    flux buffer one more, and the engine has the band count asked for.  On
    every engine whose arrays are so, [computeInsolation], a refresh and
    [step] change neither the band count nor the length of any array. *)
Theorem X1_lengths_kept {num : Type} `{Number num} (random dt : num) (e : EBM) :
  wf e ->
  let kept (e' : EBM) :=
    size e' = size e /\
    length (lat e') = bands e /\ length (x e') = bands e /\
    length (T e') = bands e /\ length (albedo e') = bands e /\
    length (insol e') = bands e /\ length (ASR e') = bands e /\
    length (OLR e') = bands e /\ length (transport e') = bands e /\
    length (_fluxBuffer e') = S (bands e) in
  kept (computeInsolation e) /\ kept (updateDiagnostics e) /\
  (exists r, step random dt e = Some r /\ kept (engine r)) /\
  (forall (n : Z) (p : EBMParams) (e0 : EBM),
     constructor n p = inr e0 ->
     size e0 = n /\
     length (lat e0) = Z.to_nat n /\ length (x e0) = Z.to_nat n /\
     length (T e0) = Z.to_nat n /\ length (albedo e0) = Z.to_nat n /\
     length (insol e0) = Z.to_nat n /\ length (ASR e0) = Z.to_nat n /\
     length (OLR e0) = Z.to_nat n /\ length (transport e0) = Z.to_nat n /\
     length (_fluxBuffer e0) = S (Z.to_nat n)).
Proof.
  intros Hwf.
  assert (forall e' : @EBM num, size e' = size e -> wf e' ->
            size e' = size e /\
            length (lat e') = bands e /\ length (x e') = bands e /\
            length (T e') = bands e /\ length (albedo e') = bands e /\
            length (insol e') = bands e /\ length (ASR e') = bands e /\
            length (OLR e') = bands e /\ length (transport e') = bands e /\
            length (_fluxBuffer e') = S (bands e)) as Hkept.
  { intros e' Hsize Hwf'.
    assert (bands e' = bands e) as Hb by (unfold bands; rewrite Hsize; reflexivity).
    destruct Hwf'. rewrite <- Hb. repeat split; assumption. }
  cbv zeta. split; [|split; [|split]].
  - apply Hkept; [rewrite computeInsolation_eq; reflexivity|].
    apply wf_computeInsolation. exact Hwf.
  - apply Hkept; [apply updateDiagnostics_frame|].
    apply wf_updateDiagnostics. exact Hwf.
  - destruct (step_total random dt e) as [r Hr]. exists r. split; [exact Hr|].
    apply step_inv in Hr as (r0 & Hrun & _ & _ & _ & _ & Hend).
    pose proof (loop_run_wf _ _ _ _ _ _ Hrun Hwf) as Hwf0.
    apply loop_run_frame in Hrun as (_ & Hs & _).
    destruct Hend as [[_ ->]|(_ & -> & _)].
    + apply Hkept; assumption.
    + apply Hkept; [exact Hs|]. destruct Hwf0. split; assumption.
  - intros n p e0 He0. pose proof (constructor_bands n p e0 He0) as Hb.
    apply constructor_wf in He0 as (Hwf0 & Hsize & _).
    destruct Hwf0. rewrite <- Hb. repeat split; assumption.
Qed.

Lemma X1_lengths_kept_witness :
  exists e r,
    constructor (H := IEEE) 46 DEFAULT_PARAMS = inr e /\
    step (dec 5 10) (dec 2 1000) e = Some r /\
    size (engine r) = 46%Z /\
    length (T (engine r)) = 46%nat /\ length (_fluxBuffer (engine r)) = 47%nat.
Proof.
  eexists.
  assert (constructor (H := IEEE) 46 DEFAULT_PARAMS = inr ?[e]) as He
    by (vm_compute; reflexivity).
  destruct (constructor_wf 46 DEFAULT_PARAMS _ He) as (Hwf & Hsize & _).
  match type of He with _ = inr ?e =>
    destruct (X1_lengths_kept (dec 5 10) (dec 2 1000) e Hwf)
      as (_ & _ & (r & Hr & Hs & _ & _ & HT & _ & _ & _ & _ & _ & Hflux) & _)
  end.
  exists r. split; [exact He|]. split; [exact Hr|].
  split; [rewrite Hs; exact Hsize|].
  rewrite HT, Hflux. unfold bands. rewrite Hsize. split; reflexivity.
Defined.

(** X2.  After construction nothing writes the grid or the band count:
    [computeInsolation], a refresh and [step] leave [x], [lat] and [size] as
    they are, and change no parameter. *)
Theorem X2_grid_immutable {num : Type} `{Number num} (random dt : num) (e : EBM) :
  let kept (e' : EBM) :=
    x e' = x e /\ lat e' = lat e /\ size e' = size e /\ params e' = params e in
  kept (computeInsolation e) /\ kept (updateDiagnostics e) /\
  exists r, step random dt e = Some r /\ kept (engine r).
Proof.
  cbv zeta. split; [|split].
  - rewrite computeInsolation_eq. repeat split.
  - destruct (updateDiagnostics_frame e) as (Hp & Hsize & Hlat & Hx & _).
    repeat split; assumption.
  - destruct (step_total random dt e) as [r Hr]. exists r. split; [exact Hr|].
    apply step_inv in Hr as (r0 & Hrun & _ & _ & _ & _ & [[_ ->]|(_ & -> & _)]);
      apply loop_run_frame in Hrun as (Hp & Hsize & Hlat & Hx & _);
      repeat split; assumption.
Qed.

(** ** The engine as constructed *)

Section Fresh.

Context {num : Type} `{Number num}.

Local Open Scope num_scope.

(** A constructed engine is the allocated object after [initGrid], the
    initial profile and one refresh. *)
Lemma constructor_shape (n : Z) (p : EBMParams) (e : EBM) :
  constructor n p = inr e ->
  let g := initGrid (allocated n p) in
  e = updateDiagnostics (set_T (fill 0 (Z.to_nat n) (T0_at g) (T g)) g) /\
  x g = fill 0 (Z.to_nat n) (xVal_at n) (replicate (Z.to_nat n) #0) /\
  T g = replicate (Z.to_nat n) #0 /\ insol g = replicate (Z.to_nat n) #0 /\
  ASR g = replicate (Z.to_nat n) #0 /\
  params g = p /\ size g = n /\ time g = #0.
Proof.
  intros He. cbv zeta. apply constructor_inv in He as [Hn ->].
  set (g := initGrid (allocated n p)).
  assert (g = set_lat (fill 0 (Z.to_nat n) (lat_at n) (replicate (Z.to_nat n) #0))
                (set_x (fill 0 (Z.to_nat n) (xVal_at n) (replicate (Z.to_nat n) #0))
                   (allocated n p))) as Hg by apply initGrid_eq.
  split.
  - rewrite initState_eq. fold g.
    replace (bands g) with (Z.to_nat n) by (rewrite Hg; reflexivity). reflexivity.
  - rewrite Hg. repeat split.
Qed.

End Fresh.

Section FreshFields.

Context {num : Type} `{Number num}.

Local Open Scope num_scope.

(** The fields of a fresh engine, band by band. *)
Lemma fresh_fields (n : Z) (p : EBMParams) (e : EBM) (i : nat) :
  constructor n p = inr e -> (i < Z.to_nat n)%nat ->
  time e = #0 /\ params e = p /\
  insol e !! i = Some #0 /\
  ASR e !! i = Some (fround (#0 * (#1 - rd (albedo e) i))) /\
  T e !! i = Some (fround (#15 + #20 * (#1 - #2 * rd (x e) i * rd (x e) i))).
Proof.
  intros He Hi.
  destruct (constructor_shape n p e He) as (-> & Hx & HT & Hins & HASR & Hp & Hsize & Htime).
  set (g := initGrid (allocated n p)) in *.
  set (e0 := set_T (fill 0 (Z.to_nat n) (T0_at g) (T g)) g).
  destruct (updateDiagnostics_frame e0) as (-> & _ & _ & -> & -> & -> & ->).
  destruct (updateDiagnostics_fields e0) as (Hal & -> & _).
  cbv zeta in Hal. rewrite <- Hal.
  assert (bands e0 = Z.to_nat n) as Hb by (unfold bands; cbn; rewrite Hsize; reflexivity).
  cbn [time params insol ASR T x e0 set_T]. rewrite Hb.
  split; [exact Htime|]. split; [exact Hp|].
  split; [rewrite Hins; apply lookup_replicate_2; exact Hi|].
  split.
  - rewrite lookup_fill_in; [|lia|rewrite HASR, length_replicate; exact Hi].
    unfold rd at 1. rewrite Hins, lookup_replicate_2 by exact Hi. reflexivity.
  - rewrite lookup_fill_in; [reflexivity|lia|rewrite HT, length_replicate; exact Hi].
Qed.

Lemma fresh_albedo (n : Z) (p : EBMParams) (e : EBM) (i : nat) :
  constructor n p = inr e -> (i < Z.to_nat n)%nat ->
  albedo e !! i =
  Some (fround (if rd (T e) i <? iceThreshold p then iceAlbedo p else oceanAlbedo p)).
Proof.
  intros He Hi.
  destruct (constructor_shape n p e He) as (-> & Hx & HT & Hins & HASR & Hp & Hsize & Htime).
  set (g := initGrid (allocated n p)) in *.
  set (e0 := set_T (fill 0 (Z.to_nat n) (T0_at g) (T g)) g).
  destruct (updateDiagnostics_frame e0) as (_ & _ & _ & _ & -> & _).
  destruct (updateDiagnostics_fields e0) as (-> & _).
  assert (bands e0 = Z.to_nat n) as Hb by (unfold bands; cbn; rewrite Hsize; reflexivity).
  rewrite Hb. rewrite lookup_fill_in; [|lia|].
  - unfold albedo_at. cbn [params e0 set_T]. rewrite Hp. reflexivity.
  - cbn [albedo e0 set_T].
    assert (albedo g = replicate (Z.to_nat n) #0) as ->.
    { unfold g. rewrite initGrid_eq. reflexivity. }
    rewrite length_replicate. exact Hi.
Qed.

End FreshFields.

(** X4.  The constructor never computes the insolation: in a fresh engine
    [insol] is zero in every band, so [ASR] holds the stored [0 * (1 -
    albedo)]; the clock is zero, the parameters are the ones given, and
    [T[i]] holds [15 + 20 * (1 - 2 * x[i] * x[i])] from the stored [x]. *)
Theorem X4_fresh_engine {num : Type} `{Number num} (n : Z) (p : EBMParams) (e : EBM)
    (i : nat) :
  constructor n p = inr e -> (i < Z.to_nat n)%nat ->
  time e = (#0)%num /\ params e = p /\
  insol e !! i = Some (#0)%num /\
  ASR e !! i = Some (fround (#0 * (#1 - rd (albedo e) i))%num) /\
  T e !! i = Some (fround (#15 + #20 * (#1 - #2 * rd (x e) i * rd (x e) i))%num).
Proof. exact (fresh_fields n p e i). Qed.

Lemma X4_fresh_engine_witness :
  exists e,
    constructor (H := IEEE) 4 DEFAULT_PARAMS = inr e /\
    insol e !! 0%nat = Some 0%float /\ ASR e !! 0%nat = Some 0%float /\
    T e !! 0%nat = Some 12.5%float.
Proof.
  eexists.
  assert (constructor (H := IEEE) 4 DEFAULT_PARAMS = inr ?[e]) as He
    by (vm_compute; reflexivity).
  split; [exact He|].
  destruct (X4_fresh_engine 4 DEFAULT_PARAMS _ 0%nat He ltac:(vm_compute; lia))
    as (_ & _ & Hins & HASR & HT).
  split; [exact Hins|]. split; [rewrite HASR|rewrite HT]; vm_compute; reflexivity.
Defined.

(** ** The fresh engine in exact arithmetic *)

Lemma exact_x (n : Z) (p : EBMParams) (e : EBM (num := R)) (i : nat) :
  (0 < n)%Z -> constructor n p = inr e -> (i < Z.to_nat n)%nat ->
  rd (x e) i = (-1 + 2 * ((INR i + 1 / 2) / IZR n))%R /\
  (-1 < rd (x e) i < 1)%R.
Proof.
  intros Hn He Hi.
  destruct (constructor_grid n p e i He Hi) as [Hx _].
  rewrite (rd_Some _ _ _ Hx). cbn [fround Exact].
  split; [apply xVal_at_exact; exact Hn|].
  pose proof (xVal_at_first n Hn) as Hfirst.
  pose proof (xVal_at_last n Hn) as Hlast.
  split.
  - destruct i as [|i]; [exact Hfirst|].
    pose proof (xVal_at_increasing n 0%nat (S i) Hn ltac:(lia)). lra.
  - destruct (Nat.eq_dec i (Z.to_nat n - 1)%nat) as [->|Hne]; [exact Hlast|].
    pose proof (xVal_at_increasing n i (Z.to_nat n - 1)%nat Hn ltac:(lia)). lra.
Qed.

Lemma exact_T (n : Z) (p : EBMParams) (e : EBM (num := R)) (i : nat) :
  constructor n p = inr e -> (i < Z.to_nat n)%nat ->
  rd (T e) i = (15 + 20 * (1 - 2 * rd (x e) i * rd (x e) i))%R.
Proof.
  intros He Hi. destruct (fresh_fields n p e i He Hi) as (_ & _ & _ & _ & HT).
  rewrite (rd_Some _ _ _ HT). reflexivity.
Qed.

Lemma exact_insol (e : EBM (num := R)) (i : nat) :
  wf e -> (i < bands e)%nat ->
  rd (insol (computeInsolation e)) i =
  (S0 (params e) / 4 * (1 - 482 / 1000 * ((3 * (rd (x e) i) ^ 2 - 1) / 2)))%R.
Proof.
  intros Hwf Hi. rewrite computeInsolation_eq. cbn [insol set_insol].
  rewrite rd_fill_in; [|lia|rewrite (wf_insol e Hwf); exact Hi].
  unfold insol_at, dec. cbn. field.
Qed.

(** X5.  [computeInsolation] stores [(S0/4) * (1 + s2 * P2(x[i]))],
    [s2 = -0.482], in every band and changes no other field.  In exact
    arithmetic, on a constructed engine with [S0 >= 0], every band's
    insolation lies between 0.518 and 1.241 times [S0/4]. *)
Theorem X5_insolation {num : Type} `{Number num} (e : EBM) (n : Z)
    (p : EBMParams (num := R)) (eR : EBM (num := R)) :
  wf e -> (0 < n)%Z -> constructor n p = inr eR -> (0 <= S0 p)%R ->
  (forall i, (i < bands e)%nat ->
     insol (computeInsolation e) !! i =
     Some (fround ((S0 (params e) / #4)
                   * (#1 + - dec 482 1000
                           * (dec 5 10 * (#3 * rd (x e) i * rd (x e) i - #1))))%num)) /\
  computeInsolation e = set_insol (insol (computeInsolation e)) e /\
  (forall i, (i < Z.to_nat n)%nat ->
     (S0 p / 4 * (518 / 1000) <= rd (insol (computeInsolation eR)) i
      <= S0 p / 4 * (1241 / 1000))%R).
Proof.
  intros Hwf Hn He HS0. split; [|split].
  - intros i Hi. rewrite computeInsolation_eq. cbn [insol set_insol].
    rewrite lookup_fill_in; [reflexivity|lia|rewrite (wf_insol e Hwf); exact Hi].
  - rewrite computeInsolation_eq at 1. rewrite computeInsolation_eq. reflexivity.
  - intros i Hi.
    destruct (constructor_wf n p eR He) as (HwfR & Hsize & Hp).
    rewrite exact_insol; [|exact HwfR|rewrite (constructor_bands n p eR He); exact Hi].
    destruct (exact_x n p eR i Hn He Hi) as (_ & Hlo & Hhi). rewrite Hp.
    set (xi := rd (x eR) i) in *.
    assert (0 <= xi ^ 2 < 1)%R as Hsq by nra.
    split; apply Rmult_le_compat_l; lra.
Qed.

Lemma X5_insolation_witness :
  exists e eR,
    constructor (H := IEEE) 4 DEFAULT_PARAMS = inr e /\
    constructor (H := Exact) 4 DEFAULT_PARAMS = inr eR /\
    insol (computeInsolation e) !! 0%nat = Some 283.666259765625%float /\
    (rd (insol (computeInsolation eR)) 0 <= 1360 / 4 * (1241 / 1000))%R.
Proof.
  eexists. eexists.
  assert (constructor (H := IEEE) 4 DEFAULT_PARAMS = inr ?[e]) as He
    by (vm_compute; reflexivity).
  assert (constructor (H := Exact) 4 DEFAULT_PARAMS = inr ?[eR]) as HeR
    by (apply constructor_ok; lia).
  split; [exact He|]. split; [exact HeR|].
  match type of He with
  | _ = inr ?e =>
      destruct (X5_insolation e 4 DEFAULT_PARAMS
                  (initState (initGrid (allocated 4 DEFAULT_PARAMS))))
        as (Hf & _ & Hb); [ | | exact HeR | | ]
  end.
  - repeat split; vm_compute; first [reflexivity | discriminate].
  - lia.
  - cbn. lra.
  - split.
    + rewrite (Hf 0%nat) by (vm_compute; lia). vm_compute. reflexivity.
    + apply (Hb 0%nat ltac:(vm_compute; lia)).
Defined.

(** X6.  In exact arithmetic a constructed engine is symmetric about the
    equator: [x[N-1-i] = -x[i]], the initial [T[N-1-i] = T[i]], and after
    [computeInsolation] [insol[N-1-i] = insol[i]]. *)
Theorem X6_equatorial_symmetry (n : Z) (p : EBMParams (num := R)) (e : EBM (num := R))
    (i : nat) :
  (0 < n)%Z -> constructor n p = inr e -> (i < Z.to_nat n)%nat ->
  let j := (Z.to_nat n - 1 - i)%nat in
  rd (x e) j = (- rd (x e) i)%R /\
  rd (T e) j = rd (T e) i /\
  rd (insol (computeInsolation e)) j = rd (insol (computeInsolation e)) i.
Proof.
  intros Hn He Hi j.
  assert (j < Z.to_nat n)%nat as Hj by (unfold j; lia).
  destruct (exact_x n p e i Hn He Hi) as (Hxi & _).
  destruct (exact_x n p e j Hn He Hj) as (Hxj & _).
  assert (rd (x e) j = - rd (x e) i)%R as Hsym.
  { rewrite Hxi, Hxj. unfold j.
    rewrite !minus_INR by lia. rewrite (INR_IZR_INZ (Z.to_nat n)), Z2Nat.id by lia.
    change (INR 1) with 1%R.
    assert (IZR n <> 0)%R by (apply not_0_IZR; lia). field. assumption. }
  destruct (constructor_wf n p e He) as (Hwf & _ & _).
  pose proof (constructor_bands n p e He) as Hb.
  clearbody j.
  split; [exact Hsym|]. split.
  - rewrite (exact_T n p e i He Hi), (exact_T n p e j He Hj), Hsym. ring.
  - rewrite !exact_insol by (try exact Hwf; rewrite Hb; assumption).
    rewrite Hsym.
    replace ((- rd (x e) i) ^ 2)%R with (rd (x e) i ^ 2)%R by ring. reflexivity.
Qed.

Lemma X6_equatorial_symmetry_witness :
  exists e,
    constructor (H := Exact) 4 DEFAULT_PARAMS = inr e /\
    rd (x e) 3 = (- rd (x e) 0)%R /\ rd (T e) 3 = rd (T e) 0.
Proof.
  eexists.
  assert (constructor (H := Exact) 4 DEFAULT_PARAMS = inr ?[e]) as He
    by (apply constructor_ok; lia).
  split; [exact He|].
  destruct (X6_equatorial_symmetry 4 DEFAULT_PARAMS _ 0%nat ltac:(lia) He
              ltac:(vm_compute; lia)) as (Hx & HT & _).
  split; [exact Hx | exact HT].
Defined.

(** X7.  In exact arithmetic the initial temperature of every band is above
    -5 and at most 35, for any band count; hence with an ice threshold of
    -5 or below (the default is -10) a fresh engine has the ocean albedo in
    every band. *)
Theorem X7_initial_state_ice_free (n : Z) (p : EBMParams (num := R))
    (e : EBM (num := R)) (i : nat) :
  (0 < n)%Z -> constructor n p = inr e -> (i < Z.to_nat n)%nat ->
  (-5 < rd (T e) i <= 35)%R /\
  ((iceThreshold p <= -5)%R -> albedo e !! i = Some (oceanAlbedo p)).
Proof.
  intros Hn He Hi.
  destruct (exact_x n p e i Hn He Hi) as (_ & Hlo & Hhi).
  assert (-5 < rd (T e) i <= 35)%R as HT.
  { rewrite (exact_T n p e i He Hi). set (xi := rd (x e) i) in *.
    assert (0 <= xi * xi < 1)%R by nra. lra. }
  split; [exact HT|]. intros Hthr.
  rewrite (fresh_albedo n p e i He Hi). cbn. unfold Real.ltb.
  destruct (Rlt_dec (rd (T e) i) (iceThreshold p)); [lra | reflexivity].
Qed.

Lemma X7_initial_state_ice_free_witness :
  exists e,
    constructor (H := Exact) 90 DEFAULT_PARAMS = inr e /\
    (-5 < rd (T e) 45)%R /\ albedo e !! 45%nat = Some (3 / 10)%R.
Proof.
  eexists.
  assert (constructor (H := Exact) 90 DEFAULT_PARAMS = inr ?[e]) as He
    by (apply constructor_ok; lia).
  split; [exact He|].
  destruct (X7_initial_state_ice_free 90 DEFAULT_PARAMS _ 45%nat ltac:(lia) He
              ltac:(vm_compute; lia)) as ((HT & _) & Halb).
  split; [exact HT|]. apply Halb. cbn. lra.
Defined.

(** ** More on the integrator *)

Section Ceiling.

Context {num : Type} `{Number num}.

Local Open Scope num_scope.

(** The counter at the end of the loop. *)
Lemma loop_run_count (safeDt : num) (e : EBM) (rem : num) (k : Z) (tk : list num)
    (r : Loop) :
  loop_run safeDt e rem k tk r -> (k <= 10000)%Z ->
  (exit r = TooManySteps /\ stepsTaken r = 10001%Z) \/
  (exit r <> TooManySteps /\ (k <= stepsTaken r <= 10000)%Z).
Proof.
  induction 1 as [e rem k tk Hrem | e rem k tk e' entry Hrem Hsub
                 | e rem k tk e' d rem' k' Hrem Hsub Hk
                 | e rem k tk e' d rem' k' r Hrem Hsub Hk Hrun IH]; cbn; intros Hle.
  - right. split; [discriminate | lia].
  - right. split; [discriminate | lia].
  - apply substep_advance_inv in Hsub as (_ & _ & _ & ->).
    left. split; [reflexivity | lia].
  - apply substep_advance_inv in Hsub as (_ & _ & _ & ->).
    destruct IH as [Hcut|[Hne Hb]]; [lia | left; exact Hcut | right].
    split; [exact Hne | lia].
Qed.

(** A request that the loop condition turns down. *)
Lemma step_below_threshold (random dt : num) (e : EBM) :
  (dt >? dec 1 1000000) = false ->
  exists debug,
    step random dt e =
    Some {| engine := set_time (time e + dt) e; exit := Exhausted;
            timeRemaining := dt; stepsTaken := 0; taken := []; log := debug |} /\
    (debug = [] \/
     debug = [console_log (time e + dt) (getGlobalMeanTemp (set_time (time e + dt) e)) 0]).
Proof.
  intros Hdt. unfold step.
  assert (fuel = S (Z.to_nat 10000)) as -> by (vm_compute; reflexivity).
  cbn [while_loop]. rewrite Hdt. cbn.
  destruct (random <? dec 1 100); eexists; (split; [reflexivity|]); [right|left];
    reflexivity.
Qed.

End Ceiling.

(** X8.  A request that is not above 0.000001 (zero, negative, NaN) takes no
    sub-step and refreshes nothing: the engine is the one before but for the
    clock, which moves by [dt] all the same. *)
Theorem X8_request_below_threshold {num : Type} `{Number num} (random dt : num)
    (e : EBM) :
  (dt >? dec 1 1000000)%num = false ->
  exists r,
    step random dt e = Some r /\
    engine r = set_time (time e + dt)%num e /\
    exit r = Exhausted /\ stepsTaken r = 0%Z /\ taken r = [] /\
    T (engine r) = T e /\ albedo (engine r) = albedo e /\ OLR (engine r) = OLR e /\
    transport (engine r) = transport e.
Proof.
  intros Hdt. destruct (step_below_threshold random dt e Hdt) as (debug & Hstep & _).
  eexists. split; [exact Hstep|]. cbn. repeat split.
Qed.

Lemma X8_request_below_threshold_witness :
  exists e r,
    constructor (H := IEEE) 4 DEFAULT_PARAMS = inr e /\
    step (dec 5 10) PrimFloat.nan e = Some r /\
    stepsTaken r = 0%Z /\ T (engine r) = T e /\ isnan (time (engine r)) = true.
Proof.
  eexists.
  assert (constructor (H := IEEE) 4 DEFAULT_PARAMS = inr ?[e]) as He
    by (vm_compute; reflexivity).
  match type of He with
  | _ = inr ?e =>
      destruct (X8_request_below_threshold (dec 5 10) PrimFloat.nan e)
        as (r & Hr & He' & _ & Hk & _ & HT & _)
  end.
  - vm_compute. reflexivity.
  - exists r. split; [exact He|]. split; [exact Hr|]. split; [exact Hk|].
    split; [exact HT|]. rewrite He'. vm_compute. reflexivity.
Defined.

(** X9.  A call never takes more than 10001 sub-steps; it takes exactly
    10001 when, and only when, the ceiling cut the loop, and then the warning
    is logged and the clock still moves by [dt]. *)
Theorem X9_substep_ceiling {num : Type} `{Number num} (random dt : num) (e : EBM) :
  exists r,
    step random dt e = Some r /\
    (0 <= stepsTaken r <= 10001)%Z /\
    (exit r = TooManySteps <-> stepsTaken r = 10001%Z) /\
    (exit r = TooManySteps ->
     In console_warn (log r) /\ time (engine r) = (time e + dt)%num).
Proof.
  destruct (step_total random dt e) as [r Hr]. exists r. split; [exact Hr|].
  apply step_inv in Hr
    as (r0 & Hrun & Hexit & _ & Hsteps & _ & Hend).
  pose proof (loop_run_count _ _ _ _ _ _ Hrun ltac:(lia)) as Hcount.
  pose proof (loop_run_exit _ _ _ _ _ _ Hrun) as Hout.
  pose proof (loop_run_frame _ _ _ _ _ _ Hrun) as (_ & _ & _ & _ & _ & Htime).
  rewrite Hexit, Hsteps.
  split; [destruct Hcount as [[_ ->]|[_ Hb]]; lia|]. split.
  - destruct Hcount as [[Hc ->]|[Hne Hb]]; split; intros Hx;
      first [assumption | reflexivity | contradiction | lia].
  - intros Hcut. rewrite Hcut in Hout. destruct Hout as [_ Hlog].
    destruct Hend as [[Hnan _]|(_ & -> & debug & -> & _)]; [congruence|].
    split; [rewrite Hlog; left; reflexivity | cbn; rewrite Htime; reflexivity].
Qed.

(** ** The integrator in exact arithmetic *)

Lemma exact_no_NaN (e : EBM (num := R)) :
  wf e -> (46 <= bands e)%nat -> isNaN (T e !! 45%nat) = false.
Proof.
  intros Hwf Hb.
  destruct (lookup_lt_is_Some_2 (T e) 45) as [v Hv]; [rewrite (wf_T e Hwf); lia|].
  assert (forall o : option R, o = Some v -> isNaN o = false) as Hnum
    by (intros o ->; reflexivity).
  apply Hnum. exact Hv.
Qed.

Lemma exact_pass (safeDt : R) (e : EBM (num := R)) (rem : R) (k : Z)
    (e' : EBM) (d rem' : R) (k' : Z) :
  wf e -> substep safeDt e rem k = Advance e' d rem' k' ->
  wf e' /\ bands e' = bands e /\ d = Rmin rem safeDt /\ rem' = (rem - d)%R /\
  k' = (k + 1)%Z.
Proof.
  intros Hwf Hsub. apply substep_advance_inv in Hsub as (-> & Hd & Hrem & Hk).
  split; [apply wf_euler, wf_updateDiagnostics; exact Hwf|].
  split; [|repeat split; assumption].
  unfold bands. destruct (euler_frame d (updateDiagnostics e)) as (_ & -> & _).
  destruct (updateDiagnostics_frame e) as (_ & -> & _). reflexivity.
Qed.

(** With enough bands for the guard to find a number, a request too long
    for 10000 sub-steps runs into the ceiling. *)
Lemma exact_loop_cut (safeDt : R) (e : EBM (num := R)) (rem : R) (k : Z)
    (tk : list R) (r : Loop) :
  loop_run safeDt e rem k tk r ->
  wf e -> (46 <= bands e)%nat -> (0 <= safeDt)%R -> (k <= 10000)%Z ->
  (rem - IZR (10000 - k) * safeDt > 1 / 1000000)%R ->
  exit r = TooManySteps.
Proof.
  induction 1 as [e rem k tk Hrem | e rem k tk e' entry Hrem Hsub
                 | e rem k tk e' d rem' k' Hrem Hsub Hk
                 | e rem k tk e' d rem' k' r Hrem Hsub Hk Hrun IH];
    cbn; intros Hwf Hb Hsd Hle Hlong.
  - apply Real_ltb_false in Hrem. cbn in Hrem.
    assert (0 <= IZR (10000 - k) * safeDt)%R
      by (apply Rmult_le_pos; [apply IZR_le; lia | exact Hsd]).
    lra.
  - apply substep_abort_inv in Hsub as (_ & Hnan & _).
    pose proof (eq_trans (eq_sym Hnan) (exact_no_NaN e Hwf Hb)). discriminate.
  - reflexivity.
  - destruct (exact_pass _ _ _ _ _ _ _ _ Hwf Hsub) as (Hwf' & Hb' & -> & -> & ->).
    apply IH; [exact Hwf' | lia | exact Hsd | lia |].
    pose proof (Rmin_r rem safeDt) as Hmin.
    replace (10000 - k)%Z with (10000 - (k + 1) + 1)%Z in Hlong by lia.
    rewrite plus_IZR in Hlong. lra.
Qed.

(** The sub-steps of the loop: none above [safeDt], none below zero when
    [safeDt] is positive. *)
Lemma exact_loop_steps (safeDt : R) (e : EBM (num := R)) (rem : R) (k : Z)
    (tk : list R) (r : Loop) :
  loop_run safeDt e rem k tk r ->
  exists new,
    taken r = tk ++ new /\
    Forall (fun d => (d <= safeDt)%R /\ ((0 < safeDt)%R -> (0 < d)%R)) new.
Proof.
  assert (forall rem' : R, (rem' >? dec 1 1000000)%num = true ->
            (Rmin rem' safeDt <= safeDt)%R /\
            ((0 < safeDt)%R -> (0 < Rmin rem' safeDt)%R)) as Hmin.
  { intros rem' Hrem. apply Real_ltb_true in Hrem. cbn in Hrem.
    split; [apply Rmin_r|]. intros Hpos. apply Rmin_glb_lt; lra. }
  induction 1 as [e rem k tk Hrem | e rem k tk e' entry Hrem Hsub
                 | e rem k tk e' d rem' k' Hrem Hsub Hk
                 | e rem k tk e' d rem' k' r Hrem Hsub Hk Hrun IH]; cbn.
  - exists []. rewrite app_nil_r. split; [reflexivity | constructor].
  - exists []. rewrite app_nil_r. split; [reflexivity | constructor].
  - apply substep_advance_inv in Hsub as (_ & -> & _).
    exists [Rmin rem safeDt]. split; [reflexivity|].
    constructor; [apply Hmin; exact Hrem | constructor].
  - apply substep_advance_inv in Hsub as (_ & -> & _).
    destruct IH as (new & -> & Hall).
    exists (Rmin rem safeDt :: new). rewrite <- app_assoc. split; [reflexivity|].
    constructor; [apply Hmin; exact Hrem | exact Hall].
Qed.

(** X10.  In exact arithmetic, on an engine of at least 46 bands with a
    positive [safeDt] (so that no divisor in it is zero), a request that
    10000 sub-steps of [safeDt] leave more than 0.000001 of is cut by the
    ceiling after exactly 10001 sub-steps; the clock moves by the whole
    [dt]. *)
Theorem X10_ceiling_reached (random dt : R) (e : EBM (num := R)) :
  wf e -> (46 <= size e)%Z -> (0 < safeDt e)%R ->
  (dt - 10000 * safeDt e > 1 / 1000000)%R ->
  exists r,
    step random dt e = Some r /\
    exit r = TooManySteps /\ stepsTaken r = 10001%Z /\
    time (engine r) = (time e + dt)%R.
Proof.
  intros Hwf Hsize Hsd Hlong.
  destruct (step_total random dt e) as [r Hr]. exists r. split; [exact Hr|].
  apply step_inv in Hr as (r0 & Hrun & Hexit & _ & Hsteps & _ & Hend).
  assert (exit r0 = TooManySteps) as Hcut.
  { apply (exact_loop_cut _ _ _ _ _ _ Hrun Hwf); [unfold bands; lia | lra | lia |].
    change (IZR (10000 - 0)) with 10000%R. exact Hlong. }
  pose proof (loop_run_count _ _ _ _ _ _ Hrun ltac:(lia)) as [[_ Hc]|[Hne _]];
    [|contradiction].
  pose proof (loop_run_frame _ _ _ _ _ _ Hrun) as (_ & _ & _ & _ & _ & Htime).
  rewrite Hexit, Hsteps. split; [exact Hcut|]. split; [exact Hc|].
  destruct Hend as [[Hnan _]|(_ & -> & _)]; [congruence|].
  cbn. rewrite Htime. reflexivity.
Qed.

Lemma default_safeDt (n : Z) (e : EBM (num := R)) :
  constructor n DEFAULT_PARAMS = inr e ->
  safeDt e = (2 / IZR n * (2 / IZR n) / (2 * (6 / 10) + 1 / 1000) * (8 / 10))%R.
Proof.
  intros He. apply constructor_wf in He as (_ & Hsize & Hp).
  unfold safeDt. rewrite Hsize, Hp. reflexivity.
Qed.

Lemma X10_ceiling_reached_witness :
  exists e r,
    constructor (H := Exact) 90 DEFAULT_PARAMS = inr e /\
    step (1 / 2)%R 10%R e = Some r /\
    exit r = TooManySteps /\ stepsTaken r = 10001%Z.
Proof.
  eexists.
  assert (constructor (H := Exact) 90 DEFAULT_PARAMS = inr ?[e]) as He
    by (apply constructor_ok; lia).
  pose proof (default_safeDt 90 _ He) as Hsd.
  destruct (constructor_wf 90 DEFAULT_PARAMS _ He) as (Hwf & Hsize & _).
  destruct (X10_ceiling_reached (1 / 2)%R 10%R _ Hwf) as (r & Hr & Hcut & Hk & _).
  - rewrite Hsize. lia.
  - rewrite Hsd. lra.
  - rewrite Hsd. lra.
  - exists r. split; [exact He|]. repeat split; assumption.
Defined.

(** X11.  In exact arithmetic no sub-step of a call is longer than
    [safeDt], whatever the request; when [safeDt] is positive every sub-step
    is positive too, and [safeDt] is positive on every engine with bands and
    a non-negative diffusivity. *)
Theorem X11_substeps_within_stability_limit (random dt : R) (e : EBM (num := R)) :
  exists r,
    step random dt e = Some r /\
    Forall (fun d => (d <= safeDt e)%R) (taken r) /\
    ((0 < safeDt e)%R -> Forall (fun d => (0 < d)%R) (taken r)) /\
    ((0 < size e)%Z -> (0 <= D (params e))%R -> (0 < safeDt e)%R).
Proof.
  destruct (step_total random dt e) as [r Hr]. exists r. split; [exact Hr|].
  apply step_inv in Hr as (r0 & Hrun & _ & _ & _ & -> & _).
  destruct (exact_loop_steps _ _ _ _ _ _ Hrun) as (new & -> & Hall).
  cbn [app]. split; [|split].
  - eapply Forall_impl; [exact Hall|]. cbn. tauto.
  - intros Hpos. eapply Forall_impl; [exact Hall|]. cbn. tauto.
  - intros Hsize HD. unfold safeDt. cbn.
    assert (0 < IZR (size e))%R as Hn by (apply IZR_lt; exact Hsize).
    assert (0 < 2 / IZR (size e))%R as Hdx by (apply Rdiv_lt_0_compat; lra).
    apply Rmult_lt_0_compat; [|lra].
    apply Rdiv_lt_0_compat; [apply Rmult_lt_0_compat; exact Hdx | lra].
Qed.

(** ** The energy balance of one Euler update *)

Lemma fold_left_Rplus (l : list R) (a : R) :
  fold_left Rplus l a = (a + fold_left Rplus l 0)%R.
Proof.
  revert a. induction l as [|v l IH]; intros a; cbn.
  - ring.
  - rewrite IH, (IH (0 + v)%R). ring.
Qed.

Lemma sum_S (f : nat -> R) (n : nat) :
  fold_left Rplus (map f (seq 0 (S n))) 0%R
  = (fold_left Rplus (map f (seq 0 n)) 0 + f n)%R.
Proof. rewrite seq_S, map_app, fold_left_app. reflexivity. Qed.

Lemma sum_linear (f g h : nat -> R) (c : R) (n : nat) :
  fold_left Rplus (map (fun i => f i + (g i + h i) * c)%R (seq 0 n)) 0%R
  = (fold_left Rplus (map f (seq 0 n)) 0
     + (fold_left Rplus (map g (seq 0 n)) 0
        + fold_left Rplus (map h (seq 0 n)) 0) * c)%R.
Proof.
  induction n as [|n IH]; [cbn; ring|].
  rewrite !sum_S, IH. ring.
Qed.

Lemma sum_for_loop (f : nat -> R) (n : nat) :
  for_loop 0 n (fun i sum => sum + f i)%R 0%R
  = fold_left Rplus (map f (seq 0 n)) 0%R.
Proof.
  induction n as [|n IH]; [reflexivity|].
  rewrite for_loop_last by lia. rewrite IH, sum_S. reflexivity.
Qed.

Lemma array_as_map (arr : Float32Array (num := R)) :
  arr = map (rd arr) (seq 0 (length arr)).
Proof.
  apply list_eq. intros j. rewrite list_lookup_fmap.
  destruct (le_lt_dec (length arr) j) as [Hge|Hlt].
  - rewrite (lookup_ge_None_2 arr j Hge).
    rewrite (lookup_ge_None_2 (seq 0 (length arr)) j); [reflexivity|].
    rewrite length_seq. exact Hge.
  - rewrite (lookup_seq_lt _ _ _ Hlt). cbn.
    destruct (lookup_lt_is_Some_2 arr j Hlt) as [v Hv].
    rewrite (rd_Some arr j v Hv). exact Hv.
Qed.

Lemma exact_flux_boundary (e : EBM (num := R)) :
  wf e -> rd (flux_of e) 0 = 0%R /\ rd (flux_of e) (bands e) = 0%R.
Proof.
  intros Hwf. destruct (boundary_flux e Hwf) as [H0 Hn].
  rewrite computeTransport_eq in H0, Hn.
  cbn [_fluxBuffer set_transport set_fluxBuffer] in H0, Hn.
  split; [exact (rd_Some _ _ _ H0) | exact (rd_Some _ _ _ Hn)].
Qed.

(** In exact arithmetic the transport terms of refreshed diagnostics cancel. *)
Lemma exact_transport_sum (e : EBM (num := R)) :
  wf e ->
  fold_left Rplus (map (rd (transport (updateDiagnostics e))) (seq 0 (bands e))) 0%R
  = 0%R.
Proof.
  intros Hwf.
  destruct (updateDiagnostics_fields e) as (_ & _ & _ & _ & Htr).
  cbv zeta in Htr.
  rewrite (fill_whole (bands e)) in Htr by apply (wf_transport e Hwf).
  assert (map (rd (transport (updateDiagnostics e))) (seq 0 (bands e))
          = map (divergence_at (H := Exact) (2 / IZR (size e))%R (flux_of e))
                (seq 0 (bands e))) as ->.
  { apply map_ext_in. intros i Hi. apply in_seq in Hi.
    apply rd_Some. refine (eq_trans (f_equal (fun a => a !! i) Htr) _).
    rewrite list_lookup_fmap, lookup_seq_lt by lia. reflexivity. }
  rewrite sum_divergence.
  destruct (exact_flux_boundary e Hwf) as [-> ->]. unfold Rdiv. ring.
Qed.

(** X12.  In exact arithmetic one Euler update of refreshed diagnostics
    moves the global mean temperature by the global mean net flux divided by
    the heat capacity 10, times the sub-step: transport only moves heat
    between bands. *)
Theorem X12_energy_balance (d : R) (e : EBM (num := R)) :
  wf e -> (0 < size e)%Z ->
  let e1 := updateDiagnostics e in
  getGlobalMeanTemp (euler d e1)
  = (getGlobalMeanTemp e1 + getGlobalMeanNetFlux e1 / 10 * d)%R.
Proof.
  intros Hwf Hsize e1.
  pose proof (wf_updateDiagnostics e Hwf) as Hwf1.
  assert (bands e1 = bands e) as Hb
    by (unfold bands, e1; destruct (updateDiagnostics_frame e) as (_ & -> & _);
        reflexivity).
  pose proof (exact_transport_sum e Hwf) as Htr. fold e1 in Htr. rewrite <- Hb in Htr.
  unfold getGlobalMeanTemp, getGlobalMeanNetFlux.
  rewrite euler_eq. cbn [T size set_T].
  rewrite (fill_whole (bands e1)) by apply (wf_T e1 Hwf1).
  change (fun sum t : R => (sum + t)%num) with Rplus.
  assert (fold_left Rplus (T e1) 0%R
          = fold_left Rplus (map (rd (T e1)) (seq 0 (bands e1))) 0%R) as HT
    by (rewrite <- (wf_T e1 Hwf1), <- array_as_map; reflexivity).
  cbn [of_Z Exact]. rewrite HT.
  rewrite (sum_for_loop (fun i => rd (ASR e1) i - rd (OLR e1) i)%R).
  assert (map (fun i => fround (T_at d e1 i)) (seq 0 (bands e1))
          = map (fun i => rd (T e1) i
                          + ((rd (ASR e1) i - rd (OLR e1) i) + rd (transport e1) i)
                            * (/ 10 * d))%R
                (seq 0 (bands e1))) as ->.
  { apply map_ext. intros i. unfold T_at, heatCapacity. cbn. unfold Rdiv. ring. }
  rewrite sum_linear, Htr.
  assert (IZR (size e1) <> 0%R) as Hn.
  { unfold e1. destruct (updateDiagnostics_frame e) as (_ & -> & _).
    apply not_0_IZR. lia. }
  cbn. field. exact Hn.
Qed.

Lemma X12_energy_balance_witness :
  exists e,
    constructor (H := Exact) 4 DEFAULT_PARAMS = inr e /\
    getGlobalMeanTemp (euler (1 / 100)%R (updateDiagnostics e))
    = (getGlobalMeanTemp (updateDiagnostics e)
       + getGlobalMeanNetFlux (updateDiagnostics e) / 10 * (1 / 100))%R.
Proof.
  eexists.
  assert (constructor (H := Exact) 4 DEFAULT_PARAMS = inr ?[e]) as He
    by (apply constructor_ok; lia).
  split; [exact He|].
  destruct (constructor_wf 4 DEFAULT_PARAMS _ He) as (Hwf & Hsize & _).
  apply (X12_energy_balance (1 / 100)%R _ Hwf). rewrite Hsize. lia.
Defined.

(** The number of sub-steps of a request the ceiling does not reach:
    [m] sub-steps when [(m - 1) safeDt + 0.000001 < rem <= m safeDt + 0.000001]. *)
Lemma exact_loop_count (safeDt : R) (e : EBM (num := R)) (rem : R) (k : Z)
    (tk : list R) (r : Loop) :
  loop_run safeDt e rem k tk r ->
  forall m : Z,
    wf e -> (46 <= bands e)%nat -> (0 < safeDt)%R -> (0 <= m)%Z -> (k + m <= 10000)%Z ->
    ((IZR m - 1) * safeDt + 1 / 1000000 < rem <= IZR m * safeDt + 1 / 1000000)%R ->
    exit r = Exhausted /\ stepsTaken r = (k + m)%Z /\
    timeRemaining r = (if (m =? 0)%Z then rem else Rmax 0 (rem - IZR m * safeDt))%R.
Proof.
  induction 1 as [e rem k tk Hrem | e rem k tk e' entry Hrem Hsub
                 | e rem k tk e' d rem' k' Hrem Hsub Hk
                 | e rem k tk e' d rem' k' r Hrem Hsub Hk Hrun IH];
    cbn; intros m Hwf Hb Hsd Hm Hkm [Hlo Hhi].
  - apply Real_ltb_false in Hrem. cbn in Hrem.
    assert (m = 0)%Z as ->.
    { destruct (Z.eq_dec m 0) as [->|Hne]; [reflexivity | exfalso].
      assert (1 <= IZR m)%R by (apply IZR_le; lia). nra. }
    rewrite Z.add_0_r. repeat split; reflexivity.
  - apply substep_abort_inv in Hsub as (_ & Hnan & _).
    pose proof (eq_trans (eq_sym Hnan) (exact_no_NaN e Hwf Hb)). discriminate.
  - apply Real_ltb_true in Hrem. cbn in Hrem.
    apply substep_advance_inv in Hsub as (_ & _ & _ & ->).
    assert (m = 0)%Z as -> by lia. lra.
  - apply Real_ltb_true in Hrem. cbn in Hrem.
    destruct (exact_pass _ _ _ _ _ _ _ _ Hwf Hsub) as (Hwf' & Hb' & -> & -> & ->).
    assert (1 <= m)%Z as Hm1.
    { destruct (Z.eq_dec m 0) as [->|Hne]; [lra | lia]. }
    assert (IZR (m - 1) = IZR m - 1)%R as Hpred by (rewrite minus_IZR; reflexivity).
    destruct (Rle_dec safeDt rem) as [Hfull|Hpart].
    + rewrite (Rmin_right rem safeDt Hfull) in IH.
      destruct (IH (m - 1)%Z Hwf') as (Hexit & Hsteps & Hleft);
        [lia | exact Hsd | lia | lia | rewrite Hpred; split; lra |].
      split; [exact Hexit|]. split; [rewrite Hsteps; lia|].
      rewrite Hleft, Hpred.
      replace (m =? 0)%Z with false by (symmetry; apply Z.eqb_neq; lia).
      destruct (m - 1 =? 0)%Z eqn:Hone.
      * apply Z.eqb_eq in Hone. assert (m = 1)%Z as -> by lia.
        rewrite Rmax_right by lra. ring.
      * f_equal. ring.
    + assert (rem < safeDt)%R as Hlt by lra.
      rewrite (Rmin_left rem safeDt) in IH by lra.
      assert (m = 1)%Z as ->.
      { destruct (Z.eq_dec m 1) as [->|Hne]; [reflexivity | exfalso].
        assert (2 <= IZR m)%R by (apply IZR_le; lia). nra. }
      destruct (IH 0%Z Hwf') as (Hexit & Hsteps & Hleft);
        [lia | exact Hsd | lia | lia | cbn; split; lra |].
      split; [exact Hexit|]. split; [rewrite Hsteps; lia|].
      rewrite Hleft. cbn. rewrite Rmax_left by lra. ring.
Qed.

(** X13.  In exact arithmetic, on an engine of at least 46 bands with a
    positive [safeDt], a request [dt] with
    [(m - 1) safeDt + 0.000001 < dt <= m safeDt + 0.000001], [1 <= m <= 10000],
    takes exactly [m] sub-steps and leaves through the loop condition; what
    is left of the request is [dt - m safeDt] when that is positive, and the
    clock moves by the whole [dt]. *)
Theorem X13_substep_count (random dt : R) (e : EBM (num := R)) (m : Z) :
  wf e -> (46 <= size e)%Z -> (0 < safeDt e)%R -> (1 <= m <= 10000)%Z ->
  ((IZR m - 1) * safeDt e + 1 / 1000000 < dt <= IZR m * safeDt e + 1 / 1000000)%R ->
  exists r,
    step random dt e = Some r /\
    exit r = Exhausted /\ stepsTaken r = m /\ length (taken r) = Z.to_nat m /\
    timeRemaining r = Rmax 0 (dt - IZR m * safeDt e) /\
    time (engine r) = (time e + dt)%R.
Proof.
  intros Hwf Hsize Hsd Hm Hdt.
  destruct (step_total random dt e) as [r Hr]. exists r. split; [exact Hr|].
  apply step_inv in Hr as (r0 & Hrun & Hexit & Hrem & Hsteps & Htaken & Hend).
  destruct (exact_loop_count _ _ _ _ _ _ Hrun m Hwf) as (Hex & Hk & Hleft);
    [unfold bands; lia | exact Hsd | lia | lia | exact Hdt |].
  replace (m =? 0)%Z with false in Hleft by (symmetry; apply Z.eqb_neq; lia).
  pose proof (loop_run_frame _ _ _ _ _ _ Hrun) as (_ & _ & _ & _ & _ & Htime).
  pose proof (loop_run_trace _ _ _ _ _ _ Hrun) as Htrace.
  destruct Htrace as (new & Hnew & _ & _ & Hlen). cbn in Hnew.
  rewrite Hexit, Hrem, Hsteps, Htaken. repeat split; try assumption.
  - rewrite Hnew. lia.
  - destruct Hend as [[Hnan _]|(_ & -> & _)]; [congruence|].
    cbn. rewrite Htime. reflexivity.
Qed.

Lemma X13_substep_count_witness :
  exists e r,
    constructor (H := Exact) 90 DEFAULT_PARAMS = inr e /\
    step (1 / 2)%R (5 / 100)%R e = Some r /\
    exit r = Exhausted /\ stepsTaken r = 152%Z /\
    (0 < timeRemaining r < 1 / 1000000)%R.
Proof.
  eexists.
  assert (constructor (H := Exact) 90 DEFAULT_PARAMS = inr ?[e]) as He
    by (apply constructor_ok; lia).
  pose proof (default_safeDt 90 _ He) as Hsd.
  destruct (constructor_wf 90 DEFAULT_PARAMS _ He) as (Hwf & Hsize & _).
  destruct (X13_substep_count (1 / 2)%R (5 / 100)%R _ 152 Hwf)
    as (r & Hr & Hexit & Hk & _ & Hleft & _).
  - rewrite Hsize. lia.
  - rewrite Hsd. lra.
  - lia.
  - rewrite Hsd. lra.
  - exists r. split; [exact He|]. repeat split; try assumption.
    + rewrite Hleft, Hsd. rewrite Rmax_right by lra. lra.
    + rewrite Hleft, Hsd. rewrite Rmax_right by lra. lra.
Defined.

(** * The application's reads of the engine *)

Section Chart.

Context {num : Type} `{Number num}.

Local Open Scope num_scope.

Lemma for_loop_push {A : Type} (f : nat -> A) (n : nat) (s : list A) :
  for_loop 0 n (fun i newData => newData ++ [f i]) s = s ++ map f (seq 0 n).
Proof.
  induction n as [|n IH].
  - cbn. rewrite app_nil_r. reflexivity.
  - rewrite for_loop_last by lia. rewrite IH, seq_S, map_app, app_assoc. reflexivity.
Qed.

Lemma syncChartData_rows (e : EBM) :
  syncChartData e
  = band_row e (Some (- #90)) 0
    :: map (fun i => band_row e (lat e !! i) (Z.of_nat i)) (seq 0 (bands e))
    ++ [band_row e (Some #90) (size e - 1)].
Proof. unfold syncChartData. rewrite for_loop_push. reflexivity. Qed.

Lemma at_Z_nat (arr : @Float32Array num) (i : nat) : at_Z arr (Z.of_nat i) = arr !! i.
Proof.
  unfold at_Z. destruct (Z.ltb_spec (Z.of_nat i) 0) as [Hneg|_]; [lia|].
  rewrite Nat2Z.id. reflexivity.
Qed.

Lemma at_Z_negative (arr : @Float32Array num) (z : Z) : (z < 0)%Z -> at_Z arr z = None.
Proof.
  intros Hz. unfold at_Z. destruct (Z.ltb_spec z 0) as [_|Hpos]; [reflexivity | lia].
Qed.

Lemma array_at (arr : @Float32Array num) (n i : nat) :
  length arr = n -> (i < n)%nat -> exists v, arr !! i = Some v.
Proof. intros Hlen Hi. apply lookup_lt_is_Some_2. rewrite Hlen. exact Hi. Qed.

Lemma band_row_complete (e : EBM) (l : num) (i : nat) :
  wf e -> (i < bands e)%nat -> complete (band_row e (Some l) (Z.of_nat i)) = true.
Proof.
  intros Hwf Hi. unfold band_row. rewrite !at_Z_nat.
  destruct (array_at _ _ i (wf_T e Hwf) Hi) as [? ->].
  destruct (array_at _ _ i (wf_albedo e Hwf) Hi) as [? ->].
  destruct (array_at _ _ i (wf_ASR e Hwf) Hi) as [? ->].
  destruct (array_at _ _ i (wf_OLR e Hwf) Hi) as [? ->].
  destruct (array_at _ _ i (wf_transport e Hwf) Hi) as [? ->].
  reflexivity.
Qed.

End Chart.

(** X14.  The chart of an engine whose arrays have one element per band
    has a row for each band between two pole rows.  Every band row holds
    the band's own entries, none of them [undefined].  With at least one
    band the pole rows repeat the first and the last band under the
    latitudes -90 and 90; with no band they hold [undefined] entries. *)
Theorem X14_chart_rows {num : Type} `{Number num} (e : EBM) :
  wf e ->
  let rows := syncChartData e in
  length rows = S (S (bands e)) /\
  (forall i, (i < bands e)%nat ->
     exists l, lat e !! i = Some l /\
       rows !! S i =
       Some (chartData (Some l) (T e !! i) (albedo e !! i) (ASR e !! i) (OLR e !! i)
               (iceThreshold (params e)) (transport e !! i)) /\
       forall row, rows !! S i = Some row -> complete row = true) /\
  ((1 <= size e)%Z ->
     exists south north,
       rows !! 1%nat = Some south /\ rows !! bands e = Some north /\
       rows !! 0%nat = Some (with_lat (Some (- #90)%num) south) /\
       rows !! S (bands e) = Some (with_lat (Some (#90)%num) north)) /\
  (size e = 0%Z ->
     rows = [chartData (Some (- #90)%num) None None None None
               (iceThreshold (params e)) None;
             chartData (Some (#90)%num) None None None None
               (iceThreshold (params e)) None]).
Proof.
  intros Hwf rows. unfold rows. rewrite syncChartData_rows.
  set (f := fun i => band_row e (lat e !! i) (Z.of_nat i)).
  assert (forall i, (i < bands e)%nat ->
            (band_row e (Some (- #90)%num) 0
               :: map f (seq 0 (bands e)) ++ [band_row e (Some (#90)%num) (size e - 1)])
              !! S i = Some (f i)) as Hrow.
  { intros i Hi.
    change ((map f (seq 0 (bands e)) ++ [band_row e (Some (#90)%num) (size e - 1)]) !! i
            = Some (f i)).
    rewrite lookup_app_l by (rewrite length_map, length_seq; exact Hi).
    rewrite list_lookup_fmap, lookup_seq_lt by exact Hi. reflexivity. }
  split; [|split; [|split]].
  - cbn. rewrite length_app, length_map, length_seq. cbn. lia.
  - intros i Hi. destruct (array_at _ _ i (wf_lat e Hwf) Hi) as [l Hl].
    exists l. split; [exact Hl|]. rewrite (Hrow i Hi). unfold f, band_row.
    rewrite !at_Z_nat.
    split; [f_equal; f_equal; exact Hl|].
    intros row Hrow'. injection Hrow' as <-.
    pose proof (band_row_complete e l i Hwf Hi) as Hc. unfold band_row in Hc.
    rewrite !at_Z_nat in Hc.
    refine (eq_trans (f_equal (fun o => complete (chartData o _ _ _ _ _ _)) Hl) Hc).
  - intros Hsize.
    assert (bands e = S (Z.to_nat (size e - 1))) as Hn by (unfold bands; lia).
    exists (f 0%nat), (f (Z.to_nat (size e - 1))).
    split; [apply (Hrow 0%nat); lia|].
    split; [pose proof (Hrow (Z.to_nat (size e - 1)) ltac:(lia)) as Hlast;
            rewrite <- Hn in Hlast; exact Hlast|].
    split; [reflexivity|].
    change ((map f (seq 0 (bands e)) ++ [band_row e (Some (#90)%num) (size e - 1)])
              !! bands e
            = Some (with_lat (Some (#90)%num) (f (Z.to_nat (size e - 1))))).
    rewrite lookup_app_r by (rewrite length_map, length_seq; lia).
    rewrite length_map, length_seq, Nat.sub_diag. cbn. unfold f.
    rewrite Z2Nat.id by lia. reflexivity.
  - intros Hsize.
    assert (bands e = 0%nat) as Hn by (unfold bands; rewrite Hsize; reflexivity).
    assert (forall arr : @Float32Array num, length arr = bands e -> at_Z arr 0 = None)
      as Hnone.
    { intros arr Hlen. unfold at_Z. cbn. apply lookup_ge_None_2. rewrite Hlen, Hn. lia. }
    rewrite Hn, Hsize. cbn [seq map app]. unfold band_row.
    rewrite (Hnone _ (wf_T e Hwf)), (Hnone _ (wf_albedo e Hwf)),
      (Hnone _ (wf_ASR e Hwf)), (Hnone _ (wf_OLR e Hwf)),
      (Hnone _ (wf_transport e Hwf)).
    rewrite !at_Z_negative by lia. reflexivity.
Qed.

Lemma X14_chart_rows_witness :
  exists e,
    constructor (H := IEEE) 4 DEFAULT_PARAMS = inr e /\
    length (syncChartData e) = 6%nat /\
    exists south,
      syncChartData e !! 1%nat = Some south /\
      syncChartData e !! 0%nat = Some (with_lat (Some (- #90)%num) south).
Proof.
  eexists.
  assert (constructor (H := IEEE) 4 DEFAULT_PARAMS = inr ?[e]) as He
    by (vm_compute; reflexivity).
  split; [exact He|].
  destruct (constructor_wf 4 DEFAULT_PARAMS _ He) as (Hwf & Hsize & _).
  match type of He with _ = inr ?e =>
    destruct (X14_chart_rows e Hwf) as (Hlen & _ & Hpoles & _)
  end.
  split; [exact Hlen|].
  destruct Hpoles as (south & north & Hs & _ & H0 & _); [rewrite Hsize; lia|].
  exists south. split; [exact Hs | exact H0].
Defined.

(** ** The sliders *)

Section Sliders.

Context {num : Type} `{Number num}.

Local Open Scope num_scope.

Lemma set_params_same (e : @EBM num) : set_params (params e) e = e.
Proof. destruct e. reflexivity. Qed.

(** The effect, step by step. *)
Lemma syncParameters_eq (s c : num) (e : EBM) :
  let p := set_A (A DEFAULT_PARAMS - (c - #1) * #30)
             (set_S0 (S0 DEFAULT_PARAMS * s) (params e)) in
  let e1 := set_params (set_S0 (S0 DEFAULT_PARAMS * s) (params e)) e in
  syncParameters s c e
  = updateDiagnostics
      (set_params p (set_insol (fill 0 (bands e) (insol_at e1) (insol e)) e1)).
Proof. cbv zeta. unfold syncParameters. rewrite computeInsolation_eq. reflexivity. Qed.

Lemma syncParameters_frame (s c : num) (e : EBM) :
  let e' := syncParameters s c e in
  params e' = set_A (A DEFAULT_PARAMS - (c - #1) * #30)
                (set_S0 (S0 DEFAULT_PARAMS * s) (params e)) /\
  size e' = size e /\ lat e' = lat e /\ x e' = x e /\ T e' = T e /\ time e' = time e /\
  insol e' =
  fill 0 (bands e)
    (insol_at (set_params (set_S0 (S0 DEFAULT_PARAMS * s) (params e)) e)) (insol e).
Proof.
  cbv zeta. rewrite syncParameters_eq.
  match goal with |- context [updateDiagnostics ?e2] =>
    destruct (updateDiagnostics_frame e2) as (-> & -> & -> & -> & -> & -> & ->)
  end.
  repeat split; reflexivity.
Qed.

Lemma syncParameters_twice (s c : num) (e : EBM) :
  syncParameters s c (syncParameters s c e) = syncParameters s c e.
Proof.
  destruct (syncParameters_frame s c e) as (Hp & Hsize & _ & Hx & _ & _ & Hins).
  cbv zeta in *. set (e' := syncParameters s c e) in *.
  unfold syncParameters at 1.
  assert (set_params (set_S0 (S0 DEFAULT_PARAMS * s) (params e')) e' = e') as ->.
  { rewrite <- (set_params_same e') at 3. f_equal. rewrite Hp. reflexivity. }
  assert (computeInsolation e' = e') as ->.
  { assert (bands e' = bands e) as Hb by (unfold bands; rewrite Hsize; reflexivity).
    eapply computeInsolation_fixed; [rewrite Hb; exact Hins | exact Hx |].
    rewrite Hp. reflexivity. }
  assert (set_params (set_A (A DEFAULT_PARAMS - (c - #1) * #30) (params e')) e' = e')
    as ->.
  { rewrite <- (set_params_same e') at 3. f_equal. rewrite Hp. reflexivity. }
  unfold e'. rewrite syncParameters_eq. apply updateDiagnostics_twice.
Qed.

End Sliders.

(** X15.  Moving a slider changes neither the temperatures nor the clock
    nor the grid.  It sets [S0] to 1360 times the solar slider and [A] to
    210 less 30 for every unit of the CO2 slider above 1, whatever they
    were, and keeps the other parameters.  Afterwards the insolation and the
    diagnostics are up to date, and running the effect again with the same
    sliders changes nothing. *)
Theorem X15_sliders {num : Type} `{Number num} (s c : num) (e : EBM) :
  let e' := syncParameters s c e in
  (T e' = T e /\ time e' = time e /\ x e' = x e /\ lat e' = lat e /\ size e' = size e) /\
  (S0 (params e') = (#1360 * s)%num /\
   A (params e') = (#210 - (c - #1) * #30)%num /\
   B (params e') = B (params e) /\ D (params e') = D (params e) /\
   iceAlbedo (params e') = iceAlbedo (params e) /\
   oceanAlbedo (params e') = oceanAlbedo (params e) /\
   iceThreshold (params e') = iceThreshold (params e)) /\
  computeInsolation e' = e' /\ updateDiagnostics e' = e' /\
  syncParameters s c e' = e'.
Proof.
  destruct (syncParameters_frame s c e) as (Hp & Hsize & Hlat & Hx & HT & Htime & Hins).
  cbv zeta in *.
  split; [repeat split; assumption|].
  split; [rewrite Hp; repeat split|].
  split; [|split].
  - assert (bands (syncParameters s c e) = bands e) as Hb
      by (unfold bands; rewrite Hsize; reflexivity).
    eapply computeInsolation_fixed; [rewrite Hb; exact Hins | exact Hx |].
    rewrite Hp. reflexivity.
  - rewrite syncParameters_eq. apply updateDiagnostics_twice.
  - apply syncParameters_twice.
Qed.

Section SliderValues.

Context {num : Type} `{Number num}.

Local Open Scope num_scope.

(** What the effect leaves in band [i]. *)
Lemma syncParameters_stored (s c : num) (e : EBM) (i : nat) :
  wf e -> (i < bands e)%nat ->
  let e' := syncParameters s c e in
  let al := fround (if iceThreshold (params e) >? rd (T e) i
                    then iceAlbedo (params e) else oceanAlbedo (params e)) in
  let Q := fround ((#1360 * s / #4)
                   * (#1 + - dec 482 1000
                           * (dec 5 10 * (#3 * rd (x e) i * rd (x e) i - #1)))) in
  rd (albedo e') i = al /\
  rd (insol e') i = Q /\
  rd (ASR e') i = fround (Q * (#1 - al)) /\
  rd (OLR e') i = fround (#210 - (c - #1) * #30 + B (params e) * rd (T e) i).
Proof.
  intros Hwf Hi. cbv zeta.
  set (p1 := set_S0 (S0 DEFAULT_PARAMS * s) (params e)).
  set (p := set_A (A DEFAULT_PARAMS - (c - #1) * #30) p1).
  set (e3 := set_params p (set_insol (fill 0 (bands e) (insol_at (set_params p1 e))
                                        (insol e)) (set_params p1 e))).
  assert (syncParameters s c e = updateDiagnostics e3) as Heq
    by apply syncParameters_eq.
  assert (wf e3) as Hwf3.
  { destruct Hwf. split; cbn; try assumption. rewrite length_fill. assumption. }
  destruct (surface_stored e3 i Hwf3 Hi) as (Hal & HASR & HOLR & _ & Hins & _).
  cbv zeta in Hal, HASR, HOLR, Hins. rewrite <- Heq in Hal, HASR, HOLR, Hins.
  apply rd_Some in Hal, HASR, HOLR.
  assert (rd (insol (syncParameters s c e)) i
          = fround ((#1360 * s / #4)
                    * (#1 + - dec 482 1000
                            * (dec 5 10 * (#3 * rd (x e) i * rd (x e) i - #1))))) as HQ.
  { rewrite Hins. cbn [insol e3 set_params set_insol].
    rewrite rd_fill_in by (rewrite ?(wf_insol e Hwf); lia). reflexivity. }
  split; [exact Hal|]. split; [exact HQ|].
  split; [rewrite HASR, HQ, Hal; reflexivity|].
  rewrite HOLR. destruct (syncParameters_frame s c e) as (-> & _ & _ & _ & -> & _).
  reflexivity.
Qed.

End SliderValues.

(** X16.  In exact arithmetic the insolation and the absorbed radiation of
    every band are proportional to the solar slider, the outgoing radiation
    of every band falls by 30 for each unit of the CO2 slider, and the
    albedo follows neither slider. *)
Theorem X16_slider_response (s c : R) (e : EBM (num := R)) (i : nat) :
  wf e -> (i < bands e)%nat ->
  let neutral := syncParameters 1%R 1%R e in
  let e' := syncParameters s c e in
  rd (insol e') i = (s * rd (insol neutral) i)%R /\
  rd (ASR e') i = (s * rd (ASR neutral) i)%R /\
  rd (OLR e') i = (rd (OLR neutral) i - 30 * (c - 1))%R /\
  rd (albedo e') i = rd (albedo neutral) i.
Proof.
  intros Hwf Hi. cbv zeta.
  destruct (syncParameters_stored s c e i Hwf Hi) as (-> & -> & -> & ->).
  destruct (syncParameters_stored 1%R 1%R e i Hwf Hi) as (-> & -> & -> & ->).
  cbn. repeat split; unfold Rdiv; ring.
Qed.

Lemma X16_slider_response_witness :
  exists e,
    constructor (H := Exact) 4 DEFAULT_PARAMS = inr e /\
    rd (OLR (syncParameters (12 / 10)%R 2%R e)) 0%nat
    = (rd (OLR (syncParameters 1%R 1%R e)) 0%nat - 30 * (2 - 1))%R.
Proof.
  eexists.
  assert (constructor (H := Exact) 4 DEFAULT_PARAMS = inr ?[e]) as He
    by (apply constructor_ok; lia).
  split; [exact He|].
  destruct (constructor_wf 4 DEFAULT_PARAMS _ He) as (Hwf & Hsize & _).
  match type of He with _ = inr ?e =>
    destruct (X16_slider_response (12 / 10)%R 2%R e 0%nat Hwf) as (_ & _ & HOLR & _)
  end.
  - unfold bands. rewrite Hsize. vm_compute. lia.
  - exact HOLR.
Defined.

(** ** A NaN temperature on the display *)

Lemma is_nan_SF (v : float) : is_nan v = true <-> Prim2SF v = S754_nan.
Proof.
  unfold is_nan. rewrite FloatAxioms.eqb_spec. unfold SFeqb.
  destruct (Prim2SF v) as [s|s| |s m e]; cbn.
  - split; discriminate.
  - destruct s; split; discriminate.
  - split; reflexivity.
  - rewrite Z.compare_refl.
    replace (PosDef.Pos.compare_cont Eq m m) with Eq
      by (symmetry; apply Pos.compare_cont_refl).
    destruct s; split; discriminate.
Qed.

Lemma NaN_add_l (a b : float) : is_nan a = true -> is_nan (PrimFloat.add a b) = true.
Proof.
  intros Ha. apply is_nan_SF in Ha. apply is_nan_SF. rewrite FloatAxioms.add_spec, Ha. reflexivity.
Qed.

Lemma NaN_add_r (a b : float) : is_nan b = true -> is_nan (PrimFloat.add a b) = true.
Proof.
  intros Hb. apply is_nan_SF in Hb. apply is_nan_SF. rewrite FloatAxioms.add_spec, Hb.
  destruct (Prim2SF a); reflexivity.
Qed.

Lemma NaN_sub_r (a b : float) : is_nan b = true -> is_nan (PrimFloat.sub a b) = true.
Proof.
  intros Hb. apply is_nan_SF in Hb. apply is_nan_SF. rewrite FloatAxioms.sub_spec, Hb.
  destruct (Prim2SF a); reflexivity.
Qed.

Lemma NaN_mul_r (a b : float) : is_nan b = true -> is_nan (PrimFloat.mul a b) = true.
Proof.
  intros Hb. apply is_nan_SF in Hb. apply is_nan_SF. rewrite FloatAxioms.mul_spec, Hb.
  destruct (Prim2SF a); reflexivity.
Qed.

Lemma NaN_div_l (a b : float) : is_nan a = true -> is_nan (PrimFloat.div a b) = true.
Proof.
  intros Ha. apply is_nan_SF in Ha. apply is_nan_SF. rewrite FloatAxioms.div_spec, Ha. reflexivity.
Qed.

Lemma NaN_abs (a : float) : is_nan a = true -> is_nan (PrimFloat.abs a) = true.
Proof.
  intros Ha. apply is_nan_SF in Ha. apply is_nan_SF. rewrite FloatAxioms.abs_spec, Ha. reflexivity.
Qed.

Lemma NaN_fround (a : float) : is_nan a = true -> is_nan (Float64.fround a) = true.
Proof.
  intros Ha. unfold Float64.fround. rewrite (proj1 (is_nan_SF a) Ha). exact Ha.
Qed.

Lemma NaN_ltb_l (a b : float) : is_nan a = true -> PrimFloat.ltb a b = false.
Proof. intros Ha. apply is_nan_SF in Ha. rewrite FloatAxioms.ltb_spec, Ha. reflexivity. Qed.

Lemma NaN_ltb_r (a b : float) : is_nan b = true -> PrimFloat.ltb a b = false.
Proof.
  intros Hb. apply is_nan_SF in Hb. rewrite FloatAxioms.ltb_spec, Hb. unfold SFltb.
  destruct (Prim2SF a); reflexivity.
Qed.

Section Display.

Local Open Scope num_scope.

Lemma sum_NaN_acc (l : list float) (a : float) :
  is_nan a = true -> is_nan (fold_left (fun sum t => sum + t) l a) = true.
Proof.
  revert a. induction l as [|t l IH]; intros a Ha; [exact Ha|].
  cbn [fold_left]. apply IH. apply NaN_add_l. exact Ha.
Qed.

Lemma sum_NaN (l : list float) (a v : float) :
  In v l -> is_nan v = true -> is_nan (fold_left (fun sum t => sum + t) l a) = true.
Proof.
  revert a. induction l as [|t l IH]; intros a Hin Hv; [destruct Hin|].
  cbn [fold_left]. destruct Hin as [->|Hin].
  - apply sum_NaN_acc. apply NaN_add_r. exact Hv.
  - apply IH; assumption.
Qed.

Lemma mean_temp_NaN (e : EBM (num := float)) (i : nat) (v : float) :
  T e !! i = Some v -> is_nan v = true -> is_nan (getGlobalMeanTemp e) = true.
Proof.
  intros Hi Hv. unfold getGlobalMeanTemp. apply NaN_div_l.
  apply (sum_NaN _ _ v); [|exact Hv].
  apply list_elem_of_In. apply (list_elem_of_lookup_2 _ i). exact Hi.
Qed.

Lemma net_flux_NaN (e : EBM (num := float)) (i : nat) :
  (i < bands e)%nat -> is_nan (rd (OLR e) i) = true ->
  is_nan (getGlobalMeanNetFlux e) = true.
Proof.
  intros Hi Hv. unfold getGlobalMeanNetFlux. apply NaN_div_l.
  revert Hi. generalize (bands e). intros n. induction n as [|n IH]; intros Hi; [lia|].
  rewrite for_loop_last by lia.
  destruct (Nat.eq_dec i n) as [->|Hne].
  - apply NaN_add_r, NaN_sub_r. exact Hv.
  - apply NaN_add_l, IH. lia.
Qed.

Lemma label_NaN (t : float) :
  is_nan t = true -> getClimateState t = ("HOTHOUSE", "#fca5a5")%string.
Proof.
  intros Ht. unfold getClimateState.
  change (n_ltb (Number := IEEE)) with PrimFloat.ltb.
  rewrite !(NaN_ltb_l t) by exact Ht. reflexivity.
Qed.

(** A NaN band stays NaN through the loop. *)
Lemma loop_run_NaN (safeDt : float) (e : EBM (num := float)) (rem : float) (k : Z)
    (tk : list float) (r : Loop) (i : nat) :
  loop_run safeDt e rem k tk r -> wf e -> (i < bands e)%nat ->
  is_nan (rd (T e) i) = true ->
  is_nan (rd (T (engine r)) i) = true.
Proof.
  induction 1 as [e rem k tk Hrem | e rem k tk e' entry Hrem Hsub
                 | e rem k tk e' d rem' k' Hrem Hsub Hk
                 | e rem k tk e' d rem' k' r Hrem Hsub Hk Hrun IH];
    cbn [engine]; intros Hwf Hi Hv.
  - exact Hv.
  - apply substep_abort_inv in Hsub as (_ & _ & -> & _).
    destruct (updateDiagnostics_frame e) as (_ & _ & _ & _ & -> & _). exact Hv.
  - pose proof (substep_bands _ _ _ _ _ _ _ _ Hwf Hsub i Hi) as Hb.
    cbv zeta in Hb. rewrite (rd_Some _ _ _ Hb).
    destruct (updateDiagnostics_frame e) as (_ & _ & _ & _ & -> & _).
    apply NaN_fround, NaN_add_l. exact Hv.
  - pose proof (substep_bands _ _ _ _ _ _ _ _ Hwf Hsub i Hi) as Hb.
    cbv zeta in Hb.
    destruct (updateDiagnostics_frame e) as (_ & _ & _ & _ & HT & _).
    cbv zeta in HT. rewrite HT in Hb.
    apply IH.
    + apply substep_advance_inv in Hsub as (-> & _).
      apply wf_euler, wf_updateDiagnostics. exact Hwf.
    + apply substep_advance_inv in Hsub as (-> & _).
      unfold bands. destruct (euler_frame d (updateDiagnostics e)) as (_ & -> & _).
      destruct (updateDiagnostics_frame e) as (_ & -> & _). exact Hi.
    + rewrite (rd_Some _ _ _ Hb). apply NaN_fround, NaN_add_l. exact Hv.
Qed.

End Display.

(** X17.  A band temperature that is NaN stays NaN through every call of
    [step], and the application shows it as HOTHOUSE.  After a refresh the
    mean net flux is NaN as well, so the application finds the engine
    neither in equilibrium nor out of it. *)
Theorem X17_NaN_on_display (random dt : float) (e : EBM (num := float)) (i : nat)
    (v : float) :
  wf e -> (i < bands e)%nat -> T e !! i = Some v -> is_nan v = true ->
  getClimateState (getGlobalMeanTemp e) = ("HOTHOUSE", "#fca5a5")%string /\
  isInEquilibrium (updateDiagnostics e) = false /\
  isOutOfEquilibrium (updateDiagnostics e) = false /\
  exists r,
    step random dt e = Some r /\
    is_nan (rd (T (engine r)) i) = true /\
    getClimateState (getGlobalMeanTemp (engine r)) = ("HOTHOUSE", "#fca5a5")%string.
Proof.
  intros Hwf Hi HT Hv.
  split; [apply label_NaN, (mean_temp_NaN e i v HT Hv)|].
  assert (is_nan (getGlobalMeanNetFlux (updateDiagnostics e)) = true) as Hflux.
  { apply (net_flux_NaN _ i).
    - unfold bands. destruct (updateDiagnostics_frame e) as (_ & -> & _). exact Hi.
    - destruct (surface_stored e i Hwf Hi) as (_ & _ & HOLR & HTe & _).
      cbv zeta in HOLR, HTe. rewrite (rd_Some _ _ _ HOLR), HTe, (rd_Some _ _ _ HT).
      apply NaN_fround, NaN_add_r, NaN_mul_r. exact Hv. }
  split; [apply NaN_ltb_l, NaN_abs; exact Hflux|].
  split; [apply NaN_ltb_r, NaN_abs; exact Hflux|].
  destruct (step_total random dt e) as [r Hr]. exists r. split; [exact Hr|].
  apply step_inv in Hr as (r0 & Hrun & _ & _ & _ & _ & Hend).
  assert (is_nan (rd (T (engine r0)) i) = true) as Hnan
    by (apply (loop_run_NaN _ _ _ _ _ _ _ Hrun Hwf Hi); rewrite (rd_Some _ _ _ HT);
        exact Hv).
  assert (T (engine r) = T (engine r0)) as HTr
    by (destruct Hend as [[_ ->]|(_ & -> & _)]; reflexivity).
  rewrite HTr. split; [exact Hnan|].
  pose proof (loop_run_wf _ _ _ _ _ _ Hrun Hwf) as Hwf0.
  assert (i < length (T (engine r0)))%nat as Hlen.
  { rewrite (wf_T _ Hwf0). unfold bands.
    apply loop_run_frame in Hrun as (_ & -> & _). exact Hi. }
  destruct (lookup_lt_is_Some_2 _ _ Hlen) as [v' Hv'].
  apply label_NaN, (mean_temp_NaN _ i v').
  - rewrite HTr. exact Hv'.
  - rewrite <- (rd_Some _ _ _ Hv'). exact Hnan.
Qed.

Lemma X17_NaN_on_display_witness :
  exists e0,
    constructor (H := IEEE) 4 (set_A NaN DEFAULT_PARAMS) = inr e0 /\
    getClimateState (getGlobalMeanTemp (euler (dec 1 100) e0))
    = ("HOTHOUSE", "#fca5a5")%string /\
    isInEquilibrium (updateDiagnostics (euler (dec 1 100) e0)) = false /\
    isOutOfEquilibrium (updateDiagnostics (euler (dec 1 100) e0)) = false.
Proof.
  eexists.
  assert (constructor (H := IEEE) 4 (set_A NaN DEFAULT_PARAMS) = inr ?[e]) as He
    by (vm_compute; reflexivity).
  split; [exact He|].
  destruct (constructor_wf _ _ _ He) as (Hwf & Hsize & _).
  match type of He with _ = inr ?e0 =>
    destruct (X17_NaN_on_display (dec 5 10) (dec 5 100) (euler (dec 1 100) e0) 0%nat
                PrimFloat.nan) as (Hlabel & Hin & Hout & _)
  end.
  - apply wf_euler. exact Hwf.
  - vm_compute. lia.
  - vm_compute. reflexivity.
  - reflexivity.
  - repeat split; assumption.
Defined.

(** ** The fresh engine on the display *)

(** The sum of [15 + 20 (1 - 2 x^2)] over the first [k] grid points of [n]. *)
Lemma sum_initial_temps (n : R) (k : nat) :
  n <> 0%R ->
  fold_left Rplus
    (map (fun i => 15 + 20 * (1 - 2 * (-1 + 2 * ((INR i + 1 / 2) / n))
                                     * (-1 + 2 * ((INR i + 1 / 2) / n))))%R
         (seq 0 k)) 0%R
  = (35 * INR k
     - 40 / (n * n)
       * (4 * ((INR k - 1) * INR k * (2 * INR k - 1) / 6)
          + 4 * (1 - n) * (INR k * (INR k - 1) / 2)
          + INR k * (1 - n) * (1 - n)))%R.
Proof.
  intros Hn. induction k as [|k IH].
  - cbn. field. exact Hn.
  - rewrite sum_S, IH, S_INR. field. exact Hn.
Qed.

(** X18.  In exact arithmetic the global mean temperature of a fresh engine
    of [n] bands is [35 - 40 (n^2 - 1) / (3 n^2)], whatever the parameters:
    the application shows a fresh engine as HABITABLE when it has three
    bands or more, and as HOTHOUSE when it has one or two. *)
Theorem X18_fresh_engine_label (n : Z) (p : EBMParams (num := R))
    (e : EBM (num := R)) :
  (0 < n)%Z -> constructor n p = inr e ->
  getGlobalMeanTemp e = (35 - 40 * (IZR n * IZR n - 1) / (3 * (IZR n * IZR n)))%R /\
  ((3 <= n)%Z -> getClimateState (getGlobalMeanTemp e) = ("HABITABLE", "#86efac")%string) /\
  ((n <= 2)%Z -> getClimateState (getGlobalMeanTemp e) = ("HOTHOUSE", "#fca5a5")%string).
Proof.
  intros Hn He.
  destruct (constructor_wf n p e He) as (Hwf & Hsize & _).
  pose proof (constructor_bands n p e He) as Hb.
  assert (IZR n <> 0)%R as Hnz by (apply not_0_IZR; lia).
  assert (getGlobalMeanTemp e
          = (35 - 40 * (IZR n * IZR n - 1) / (3 * (IZR n * IZR n)))%R) as Hmean.
  { unfold getGlobalMeanTemp. cbn [of_Z Exact n_div n_add].
    change (fun sum t : R => (sum + t)%R) with Rplus.
    assert (fold_left Rplus (T e) 0%R
            = fold_left Rplus (map (rd (T e)) (seq 0 (Z.to_nat n))) 0%R) as ->
      by (rewrite <- Hb, <- (wf_T e Hwf), <- array_as_map; reflexivity).
    erewrite map_ext_in.
    2:{ intros i Hi. apply in_seq in Hi. rewrite (exact_T n p e i He) by lia.
        destruct (exact_x n p e i Hn He) as [-> _]; [lia|]. reflexivity. }
    rewrite (sum_initial_temps (IZR n) (Z.to_nat n) Hnz).
    rewrite INR_IZR_INZ, Z2Nat.id by lia. rewrite Hsize. field. exact Hnz. }
  split; [exact Hmean|].
  assert (1 <= IZR n)%R as H1 by (apply IZR_le; lia).
  assert (0 < IZR n * IZR n)%R as Hsq by nra.
  assert (forall a b : R, (a < b)%R -> Real.ltb a b = true) as Hlt
    by (intros a b Hab; unfold Real.ltb; destruct (Rlt_dec a b); [reflexivity | lra]).
  assert (forall a b : R, (b <= a)%R -> Real.ltb a b = false) as Hge
    by (intros a b Hab; unfold Real.ltb; destruct (Rlt_dec a b); [lra | reflexivity]).
  assert (getGlobalMeanTemp e * (3 * (IZR n * IZR n))
          = 65 * (IZR n * IZR n) + 40)%R as Hm by (rewrite Hmean; field; exact Hnz).
  set (m := getGlobalMeanTemp e) in *. set (N2 := (IZR n * IZR n)%R) in *.
  unfold getClimateState. cbn [n_ltb n_neg of_Z Exact].
  split.
  - intros H3. assert (3 <= IZR n)%R as Hn3 by (apply IZR_le; exact H3).
    assert (9 <= N2)%R by (unfold N2; nra).
    rewrite (Hge m (Ropp 20)) by nra. rewrite (Hge m 10%R) by nra.
    rewrite (Hlt m 25%R) by nra. reflexivity.
  - intros H2. assert (IZR n <= 2)%R as Hn2 by (apply IZR_le; exact H2).
    assert (N2 <= 4)%R by (unfold N2; nra).
    rewrite (Hge m (Ropp 20)) by nra. rewrite (Hge m 10%R) by nra.
    rewrite (Hge m 25%R) by nra. reflexivity.
Qed.

Lemma X18_fresh_engine_label_witness :
  exists e,
    constructor (H := Exact) 90 DEFAULT_PARAMS = inr e /\
    getGlobalMeanTemp e = (35 - 40 * (90 * 90 - 1) / (3 * (90 * 90)))%R /\
    getClimateState (getGlobalMeanTemp e) = ("HABITABLE", "#86efac")%string.
Proof.
  eexists.
  assert (constructor (H := Exact) 90 DEFAULT_PARAMS = inr ?[e]) as He
    by (apply constructor_ok; lia).
  split; [exact He|].
  destruct (X18_fresh_engine_label 90 DEFAULT_PARAMS _ ltac:(lia) He)
    as (Hmean & Hlabel & _).
  split; [exact Hmean | apply Hlabel; lia].
Defined.

(** ** The two equilibrium tests *)

Lemma SFltb_asym (a b : spec_float) : SFltb a b = true -> SFltb b a = false.
Proof.
  unfold SFltb, SFcompare.
  destruct a as [sa|sa| |sa ma ea], b as [sb|sb| |sb mb eb];
    try (destruct sa); try (destruct sb); try discriminate; try reflexivity.
  all: rewrite (Z.compare_antisym ea eb); destruct (ea ?= eb)%Z eqn:Hc; cbn;
    try discriminate; try reflexivity.
  all: pose proof (Pos.compare_cont_antisym ma mb Eq) as Hanti; cbn [CompOpp] in Hanti;
    change (PosDef.Pos.compare_cont Eq mb ma) with (Pos.compare_cont Eq mb ma);
    change (PosDef.Pos.compare_cont Eq ma mb) with (Pos.compare_cont Eq ma mb);
    rewrite <- Hanti;
    destruct (Pos.compare_cont Eq ma mb); cbn; try discriminate; try reflexivity.
Qed.

(** X19.  The test that pauses the run, [|flux| < 1], and the test that
    shows the out-of-equilibrium warning, [|flux| > 1], never hold together.
    In exact arithmetic both fail exactly when the mean net flux is 1 or -1. *)
Theorem X19_equilibrium_tests (e : EBM (num := float)) (eR : EBM (num := R)) :
  (isInEquilibrium e && isOutOfEquilibrium e = false) /\
  (isInEquilibrium eR && isOutOfEquilibrium eR = false) /\
  (isInEquilibrium eR = false /\ isOutOfEquilibrium eR = false <->
   getGlobalMeanNetFlux eR = 1%R \/ getGlobalMeanNetFlux eR = (-1)%R).
Proof.
  unfold isInEquilibrium, isOutOfEquilibrium, Math_abs, IEEE_abs, Exact_abs.
  cbn [n_ltb IEEE IEEE_with Exact of_Z].
  split; [|split].
  - destruct (PrimFloat.ltb (abs (getGlobalMeanNetFlux e)) (Float64.of_Z 1)) eqn:Hin;
      [|reflexivity].
    rewrite FloatAxioms.ltb_spec in Hin. rewrite FloatAxioms.ltb_spec.
    cbn [andb]. apply SFltb_asym. exact Hin.
  - unfold Real.ltb.
    destruct (Rlt_dec (Rabs (getGlobalMeanNetFlux eR)) 1),
             (Rlt_dec 1 (Rabs (getGlobalMeanNetFlux eR))); try reflexivity. lra.
  - unfold Real.ltb. set (f := getGlobalMeanNetFlux eR).
    destruct (Rlt_dec (Rabs f) 1) as [Hin|Hin], (Rlt_dec 1 (Rabs f)) as [Hout|Hout].
    + lra.
    + split; [intros [Hf _]; discriminate|].
      intros [Hf|Hf]; rewrite Hf in Hin; unfold Rabs in Hin;
        destruct (Rcase_abs _); lra.
    + split; [intros [_ Hf]; discriminate|].
      intros [Hf|Hf]; rewrite Hf in Hout; unfold Rabs in Hout;
        destruct (Rcase_abs _); lra.
    + split; [intros _|intros _; split; reflexivity].
      assert (Rabs f = 1)%R as Habs by lra.
      unfold Rabs in Habs. destruct (Rcase_abs f); [right | left]; lra.
Qed.
